(** * Query-formatting helpers of pg-promise: Column, TableName, ColumnSet, update

    A shallow embedding of
      - lib/helpers/column.js      (class Column),
      - lib/helpers/tableName.js   (class TableName),
      - lib/helpers/columnSet.js   (class ColumnSet),
      - lib/helpers/methods/update.js (function update),
    and the properties of them that the specification states.

    JavaScript strings are sequences of code units; they are embedded as
    [string], one [ascii] per code unit.  Numbers are embedded as integers. *)

From Stdlib Require Import String Ascii List ZArith Bool Arith Lia.
From Stdlib Require Import Numbers.DecimalString.
From Stdlib Require Import Sorting.Permutation Sorting.Sorted.
Import ListNotations.
Open Scope string_scope.

Set Implicit Arguments.
Set Warnings "-register-all".

(** ** JavaScript values *)

(** One property of an object as the helpers observe it: [pown] tells an own
    property from one found on the prototype chain, and [penum] whether
    [for .. in] enumerates it. *)
Record property (V : Type) : Type := mkProp {
  pkey : string;
  pval : V;
  pown : bool;
  penum : bool
}.

(** Functions are values identified by a number; what a call returns is given
    by the interpretation [call] of the sections below.

    An object is given by the properties found along its whole prototype
    chain: its own properties, in the order they were created, and the
    properties it inherits, in the order of the chain, the members of the
    built-in prototypes among them.  So [VObj []] is an object with no
    property and no prototype, as [Object.create(null)] makes it, and the
    object literal [{}] is [object []] below, which inherits the members of
    [Object.prototype]. *)
Inductive value : Type :=
| VUndefined
| VNull
| VBool (b : bool)
| VNum (n : Z)
| VStr (s : string)
| VFun (f : nat)
| VArr (items : list value)
| VObj (props : list (property value)).

(** An own, enumerable data property, as written by an object literal or by an
    assignment [o[k] = v]. *)
Definition own (k : string) (v : value) : property value := mkProp k v true true.

(** A property inherited through the prototype chain. *)
Definition inherited (k : string) (v : value) : property value := mkProp k v false true.

(** A member of a built-in prototype as an object that inherits it finds it:
    not its own, not enumerable. *)
Definition builtin (k : string) (v : value) : property value := mkProp k v false false.

(** A thrown exception: [new TypeError(msg)] or [new Error(msg)]. *)
Inductive exn : Type :=
| TypeError (msg : string)
| Error (msg : string).

(** The outcome of a call that may throw. *)
Inductive result (A : Type) : Type :=
| Ok (a : A)
| Throw (e : exn).

Arguments Throw {A} e.

Definition bind {A B : Type} (r : result A) (k : A -> result B) : result B :=
  match r with
  | Ok a => k a
  | Throw e => Throw e
  end.

Notation "x <- r ;; k" := (bind r (fun x => k))
  (at level 61, r at next level, right associativity).

(** Modelled from the spec: array.js, which adds [$map], [$filter],
    [$forEach] and [$countIf] to arrays, is not under src/; the spec describes
    the loops run with them as mapping, filtering, visiting and counting in
    column order.  [arr.$map(f)] for a callback that may throw: the first
    exception aborts the loop. *)
Fixpoint mapM {A B : Type} (f : A -> result B) (l : list A) : result (list B) :=
  match l with
  | [] => Ok []
  | a :: l' => b <- f a ;; bs <- mapM f l' ;; Ok (b :: bs)
  end.

(** *** Operators of the language *)

Definition typeof (v : value) : string :=
  match v with
  | VUndefined => "undefined"
  | VNull => "object"
  | VBool _ => "boolean"
  | VNum _ => "number"
  | VStr _ => "string"
  | VFun _ => "function"
  | VArr _ => "object"
  | VObj _ => "object"
  end.

(** ToBoolean: what [if (v)], [!v], [v && ..] and [v || ..] test. *)
Definition truthy (v : value) : bool :=
  match v with
  | VUndefined | VNull => false
  | VBool b => b
  | VNum n => negb (n =? 0)%Z
  | VStr s => negb (s =? "")
  | VFun _ | VArr _ | VObj _ => true
  end.

Definition isArray (v : value) : bool :=
  match v with
  | VArr _ => true
  | _ => false
  end.

(** Decimal rendering of an index, as string concatenation does it. *)
Definition string_of_nat (n : nat) : string :=
  NilEmpty.string_of_uint (Nat.to_uint n).

(** *** The built-in prototypes *)

(** The functions that exist before a program runs: those of the language
    and the methods of the helpers' classes.  They have the numbers from
    [first_native] on, in the order of [natives]; the callbacks of a program
    have the numbers below. *)
Definition first_native : nat := 100.

Definition Object_methods : list string :=
  ["__defineGetter__"; "__defineSetter__"; "hasOwnProperty"; "__lookupGetter__";
   "__lookupSetter__"; "isPrototypeOf"; "propertyIsEnumerable"; "toString"; "valueOf";
   "toLocaleString"].

(** The methods of [Array.prototype] (ECMAScript 2023).  Modelled from the
    spec: array.js, not under src/, adds [$map], [$filter], [$forEach] and
    [$countIf] to them. *)
Definition Array_methods : list string :=
  ["at"; "concat"; "copyWithin"; "fill"; "find"; "findIndex"; "findLast"; "findLastIndex";
   "lastIndexOf"; "pop"; "push"; "reverse"; "shift"; "unshift"; "slice"; "sort"; "splice";
   "includes"; "indexOf"; "join"; "keys"; "entries"; "values"; "forEach"; "filter"; "flat";
   "flatMap"; "map"; "every"; "some"; "reduce"; "reduceRight"; "toLocaleString"; "toString";
   "toReversed"; "toSorted"; "toSpliced"; "with"; "$map"; "$filter"; "$forEach"; "$countIf"].

Definition Function_methods : list string := ["apply"; "bind"; "call"; "toString"].

(** The methods that column.js and tableName.js assign to the prototypes of
    their classes; they are enumerable. *)
Definition class_methods : list string := ["toString"; "inspect"].

Definition qualified (class : string) (methods : list string) : list string :=
  class :: map (fun m => class ++ ".prototype." ++ m) methods.

Definition natives : list string :=
  (qualified "Object" Object_methods ++ qualified "Array" Array_methods
   ++ qualified "Function" Function_methods ++ qualified "Column" class_methods
   ++ qualified "TableName" class_methods)%list.

Fixpoint position (name : string) (l : list string) : nat :=
  match l with
  | [] => 0
  | x :: l' => if x =? name then 0 else S (position name l')
  end.

(** The function of that qualified name, as [Object.prototype.toString]. *)
Definition native (name : string) : value := VFun (first_native + position name natives).

(** [Object.prototype.hasOwnProperty]. *)
Definition Object_hasOwnProperty : nat :=
  first_native + position "Object.prototype.hasOwnProperty" natives.

(** The accessor [__proto__] of [Object.prototype]: among the properties of
    an object it is the property of that name that is not enumerable, and its
    value is what the getter answers, the prototype of the object.  (A
    property of that name that is enumerable, as [JSON.parse] makes it, is
    plain data.) *)
Definition is_proto_accessor (p : property value) : bool :=
  (pkey p =? "__proto__") && negb (penum p).

(** The properties [ps] that the object [proto] has along its chain, as an
    object whose prototype is [proto] inherits them: the getter of
    [__proto__] answers [proto]. *)
Definition inherit (proto : value) (ps : list (property value)) : list (property value) :=
  map (fun p => mkProp (pkey p) (if is_proto_accessor p then proto else pval p)
                       false (penum p)) ps.

(** What an object whose prototype is the object [proto] inherits. *)
Definition inherited_from (proto : value) : list (property value) :=
  match proto with
  | VObj ps => inherit proto ps
  | _ => []
  end.

(** The own properties of a prototype of the class [class]: [constructor]
    and the methods, enumerable or not. *)
Definition prototype_members (class : string) (methods : list string) (enum : bool)
  : list (property value) :=
  mkProp "constructor" (native class) true false
  :: map (fun m => mkProp m (native (class ++ ".prototype." ++ m)) true enum) methods.

(** [Object.prototype], and what an object inherits from it. *)
Definition Object_prototype_object : value :=
  VObj (prototype_members "Object" Object_methods false
        ++ [mkProp "__proto__" VNull true false])%list.

Definition Object_prototype : list (property value) :=
  inherited_from Object_prototype_object.

(** The object literal [{k1: v1, ...}], and any object with these own
    properties that inherits from [Object.prototype] only. *)
Definition object (props : list (property value)) : value :=
  VObj (props ++ Object_prototype)%list.

(** The prototypes of arrays and of functions, an array with a length of 0
    and a function, and what their instances inherit. *)
Definition Array_prototype_object : value :=
  VObj (mkProp "length" (VNum 0) true false
        :: prototype_members "Array" Array_methods false ++ Object_prototype)%list.

Definition Array_prototype : list (property value) :=
  inherited_from Array_prototype_object.

Definition Function_prototype_object : value :=
  VObj (prototype_members "Function" Function_methods false ++ Object_prototype)%list.

Definition Function_prototype : list (property value) :=
  inherited_from Function_prototype_object.

(** The prototype of the class [class] of the helpers, and an instance of it
    with the own properties [fields]. *)
Definition class_prototype_object (class : string) : value :=
  VObj (prototype_members class class_methods true ++ Object_prototype)%list.

Definition instance (class : string) (fields : list (property value)) : value :=
  VObj (fields ++ inherited_from (class_prototype_object class))%list.

(** The elements of an array as its own properties. *)
Definition array_items (items : list value) : list (property value) :=
  map (fun i => own (string_of_nat i) (nth i items VUndefined)) (seq 0 (List.length items)).

(** The properties of a value along its chain.  What a function holds of
    its own ([length], [name], [prototype]) is not modelled. *)
Definition properties (v : value) : list (property value) :=
  match v with
  | VObj ps => ps
  | VArr items =>
      (array_items items
       ++ mkProp "length" (VNum (Z.of_nat (List.length items))) true false
       :: Array_prototype)%list
  | VFun _ => Function_prototype
  | _ => []
  end.

(** *** Properties read *)

(** The property that answers to the name [k]: an own property comes before
    an inherited one, and of the inherited ones the first of the chain. *)
Definition lookup (k : string) (ps : list (property value)) : option (property value) :=
  match find (fun p => (pkey p =? k) && pown p) ps with
  | Some p => Some p
  | None => find (fun p => pkey p =? k) ps
  end.

(** The index an array key denotes, if it denotes one. *)
Definition array_index (k : string) (items : list value) : option nat :=
  find (fun i => string_of_nat i =? k) (seq 0 (List.length items)).

(** [k in v] for an object or an array: the property is the value's own or
    inherited, enumerable or not. *)
Definition has_property (k : string) (v : value) : bool :=
  match v with
  | VObj ps => match lookup k ps with Some _ => true | None => false end
  | VArr items =>
      (k =? "length")
      || match array_index k items with Some _ => true | None => false end
      || match lookup k Array_prototype with Some _ => true | None => false end
  | _ => false
  end.

(** [v[k]] and [v.k]: [undefined] when the property is missing.  Reading a
    property of [undefined] or [null] throws in JavaScript; the helpers only
    read properties of values they have tested first. *)
Definition get (v : value) (k : string) : value :=
  match v with
  | VObj ps => match lookup k ps with Some p => pval p | None => VUndefined end
  | VArr items =>
      if k =? "length" then VNum (Z.of_nat (List.length items))
      else match array_index k items with
           | Some i => nth i items VUndefined
           | None =>
               match lookup k Array_prototype with
               | Some p => pval p
               | None => VUndefined
               end
           end
  | VStr s => if k =? "length" then VNum (Z.of_nat (String.length s)) else VUndefined
  | _ => VUndefined
  end.

(** What [Object.prototype.hasOwnProperty] answers for [v] and [k]. *)
Definition own_property (v : value) (k : string) : bool :=
  match v with
  | VObj ps => existsb (fun p => (pkey p =? k) && pown p) ps
  | VArr items =>
      (k =? "length") || match array_index k items with Some _ => true | None => false end
  | _ => false
  end.

(** *** Enumeration *)

Definition digit_of (c : ascii) : option N :=
  let n := N_of_ascii c in
  if (48 <=? n)%N && (n <=? 57)%N then Some (n - 48)%N else None.

Fixpoint read_number (acc : N) (s : string) : option N :=
  match s with
  | EmptyString => Some acc
  | String c s' =>
      match digit_of c with
      | Some d => read_number (10 * acc + d)%N s'
      | None => None
      end
  end.

(** The array index a property name denotes, if it is one: the name is the
    canonical decimal text of an integer from 0 to 2^32 - 2. *)
Definition index_of_key (k : string) : option N :=
  match k with
  | EmptyString => None
  | String c rest =>
      if Ascii.eqb c "0"%char && negb (rest =? "") then None
      else
        match read_number 0 k with
        | Some n => if (n <? 4294967295)%N then Some n else None
        | None => None
        end
  end.

Definition is_index (k : string) : bool :=
  match index_of_key k with
  | Some _ => true
  | None => false
  end.

Fixpoint insert_index (n : N) (p : property value) (l : list (N * property value))
  : list (N * property value) :=
  match l with
  | [] => [(n, p)]
  | mq :: l' => if (n <? fst mq)%N then (n, p) :: l else mq :: insert_index n p l'
  end.

(** The properties named by an array index, in ascending order of index. *)
Fixpoint index_properties (ps : list (property value)) : list (N * property value) :=
  match ps with
  | [] => []
  | p :: ps' =>
      match index_of_key (pkey p) with
      | Some n => insert_index n p (index_properties ps')
      | None => index_properties ps'
      end
  end.

(** The own properties in the order the language lists them: those named by
    an array index first, in ascending order, then the others in the order
    they were created. *)
Definition own_properties (ps : list (property value)) : list (property value) :=
  (map snd (index_properties (filter (@pown value) ps))
   ++ filter (fun p => pown p && negb (is_index (pkey p))) ps)%list.

(** The names [for (var name in o)] visits among [ps], which are in the
    order of enumeration: the enumerable properties, a name met before, be it
    of a property that is not enumerable, being skipped. *)
Fixpoint for_in_from (seen : list string) (ps : list (property value)) : list string :=
  match ps with
  | [] => []
  | p :: ps' =>
      if existsb (String.eqb (pkey p)) seen then for_in_from seen ps'
      else if penum p then pkey p :: for_in_from (pkey p :: seen) ps'
      else for_in_from (pkey p :: seen) ps'
  end.

(** [for (var name in v)]: the own properties, then the inherited ones along
    the chain. *)
Definition for_in (v : value) : list string :=
  match v with
  | VObj ps => for_in_from [] (own_properties ps ++ filter (fun p => negb (pown p)) ps)
  | VArr items => map string_of_nat (seq 0 (List.length items))
  | _ => []
  end.

(** *** Properties written *)

(** [Object.setPrototypeOf(o, proto)] for the object [o] of properties [ps]:
    its own properties stay, what it inherits is replaced. *)
Definition set_prototype (proto : value) (ps : list (property value))
  : list (property value) :=
  (filter (@pown value) ps ++ inherit proto (properties proto))%list.

(** The own property [k] gets the value [v]. *)
Fixpoint update_own (k : string) (v : value) (ps : list (property value))
  : list (property value) :=
  match ps with
  | [] => []
  | p :: ps' =>
      if (pkey p =? k) && pown p then mkProp k v true (penum p) :: ps'
      else p :: update_own k v ps'
  end.

(** [o[k] = v] on an object of properties [ps], all of them writable.  An
    own property keeps its place; a property that is inherited or missing
    is created as the last of the own ones; the setter of the accessor
    [__proto__] replaces the prototype when [v] is an object or [null], and
    does nothing otherwise. *)
Definition set_property (k : string) (v : value) (ps : list (property value))
  : list (property value) :=
  let create := (filter (@pown value) ps ++ own k v :: filter (fun p => negb (pown p)) ps)%list in
  match lookup k ps with
  | Some p =>
      if is_proto_accessor p then
        match v with
        | VNull | VObj _ | VArr _ | VFun _ => set_prototype v ps
        | _ => ps
        end
      else if pown p then update_own k v ps
      else create
  | None => create
  end.

(** [arr.join()]: the elements separated by commas. *)
Fixpoint join (l : list string) : string :=
  match l with
  | [] => ""
  | [s] => s
  | s :: l' => s ++ "," ++ join l'
  end.

(** [s.substr(i)]. *)
Fixpoint substr_from (s : string) (i : nat) {struct i} : string :=
  match i, s with
  | O, _ => s
  | S _, EmptyString => EmptyString
  | S i', String _ s' => substr_from s' i'
  end.

(** [s.substr(0, n)]. *)
Fixpoint substr_upto (s : string) (n : nat) {struct n} : string :=
  match n, s with
  | O, _ => EmptyString
  | S _, EmptyString => EmptyString
  | S n', String c s' => String c (substr_upto s' n')
  end.

(** Whether the text [p] is found at the start of [s]. *)
Fixpoint starts_with (p s : string) : bool :=
  match p, s with
  | EmptyString, _ => true
  | String _ _, EmptyString => false
  | String a p', String b s' => Ascii.eqb a b && starts_with p' s'
  end.

(** *** utils *)

(** Modelled from the spec: utils.isNull is not under src/; a value is null
    when it is [null] or [undefined] (the spec's absent). *)
Definition isNull (v : value) : bool :=
  match v with
  | VUndefined | VNull => true
  | _ => false
  end.

(** Modelled from the spec: utils.isText is not under src/; the spec and the
    error messages call the accepted values non-empty text strings. *)
Definition isText (v : value) : bool :=
  match v with
  | VStr s => negb (s =? "")
  | _ => false
  end.

(** The text of a value that [isText] accepted. *)
Definition text_of (v : value) : string :=
  match v with
  | VStr s => s
  | _ => ""
  end.

(** ** column.js *)

(** A constructed, frozen Column.  An absent field is [None]; [col_init] and
    [col_skip] hold a function. *)
Record Column : Type := mkColumn {
  col_name : string;
  col_prop : option string;
  col_mod : option string;
  col_cast : option string;
  col_cnd : option bool;
  col_def : option value;
  col_init : option nat;
  col_skip : option nat;
  col_variable : string;
  col_castText : string;
  col_escapedName : string
}.

(** [c.cnd] as a condition. *)
Definition is_cnd (c : Column) : bool :=
  match col_cnd c with
  | Some b => b
  | None => false
  end.

(** [c.prop || c.name]. *)
Definition prop_or_name (c : Column) : string :=
  match col_prop c with
  | Some p => if p =? "" then col_name c else p
  | None => col_name c
  end.

(** The index at which the loops of [stripCnd] and [getCastName] stop:
    [while (idx < name.length && name[idx] === ch) idx++]. *)
Fixpoint skip_leading (ch : ascii) (name : string) : nat :=
  match name with
  | EmptyString => 0
  | String c name' => if Ascii.eqb c ch then S (skip_leading ch name') else 0
  end.

Definition stripCnd (name : string) : string :=
  let idx := skip_leading "?"%char name in
  if Nat.eqb idx 0 then name else substr_from name idx.

Definition getCastName (name : string) : string :=
  let idx := skip_leading ":"%char name in
  if Nat.eqb idx 0 then name else substr_from name idx.

(** The alternatives of the regular expression
    [/\^|~|#|:raw|:name|:json|:csv|:value/], in its order. *)
Definition modifiers : list string :=
  ["^"; "~"; "#"; ":raw"; ":name"; ":json"; ":csv"; ":value"].

(** The result of [String.prototype.match] without the g flag: the index of
    the match and the matched text. *)
Record regmatch : Type := mkMatch {
  m_index : nat;
  m_text : string
}.

(** [col.match(/\^|~|#|:raw|:name|:json|:csv|:value/)]: the leftmost position
    at which an alternative matches, and there the first alternative that does. *)
Fixpoint match_modifier (col : string) : option regmatch :=
  match find (fun m => starts_with m col) modifiers with
  | Some m => Some (mkMatch 0 m)
  | None =>
      match col with
      | EmptyString => None
      | String _ col' =>
          match match_modifier col' with
          | Some r => Some (mkMatch (S (m_index r)) (m_text r))
          | None => None
          end
      end
  end.

(** The fields the constructor has assigned to [this] before it validates
    them: [name] and [prop] are copied unchecked. *)
Record raw_column : Type := mkRaw {
  raw_name : option value;
  raw_prop : option value;
  raw_mod : option string;
  raw_cast : option string;
  raw_cnd : option bool;
  raw_def : option value;
  raw_init : option nat;
  raw_skip : option nat
}.

(** [o || ''] for a text that may be absent. *)
Definition or_empty (o : option string) : string :=
  match o with
  | Some s => s
  | None => ""
  end.

(** A constructed, frozen TableName. *)
Record TableName : Type := mkTableName {
  tn_table : string;
  tn_schema : option string;
  tn_name : string
}.

(** A table argument: a TableName instance or any other value. *)
Inductive table_arg : Type :=
| TableValue (v : value)
| TableInstance (t : TableName).

(** A ColumnSet: the frozen fields [table] and [columns], and the variables
    [names], [variables] and [updates] of the constructor's closure, which the
    getters and [getUpdates] assign; [None] is [undefined]. *)
Record ColumnSet : Type := mkColumnSet {
  cs_table : option TableName;
  cs_columns : list Column;
  cs_names : option string;
  cs_variables : option string;
  cs_updates : option string
}.

(** An element of a columns array: a Column instance or any other value. *)
Inductive column_spec : Type :=
| SpecValue (v : value)
| SpecColumn (c : Column).

(** A columns argument: an array that may hold Column instances, a Column
    instance, a ColumnSet instance, or any other value. *)
Inductive columns_arg : Type :=
| ColumnsValue (v : value)
| ColumnsArray (l : list column_spec)
| ColumnsColumn (c : Column)
| ColumnsSet (cs : ColumnSet).

(** The options of the ColumnSet constructor: any value, or an options object
    whose [table] is a TableName instance and whose [inherit] is given. *)
Inductive options_arg : Type :=
| OptionsValue (v : value)
| OptionsTable (t : TableName) (inherit : value).

(** A callback invocation [f.call(this, arg)]. *)
Record call_event : Type := mkCall {
  ev_fun : nat;
  ev_this : value;
  ev_arg : value
}.

(** [v > 0] for the [length] of an array. *)
Definition truthy_gt0 (v : value) : bool :=
  match v with
  | VNum n => (0 <? n)%Z
  | _ => false
  end.

(** ** Instances for examples

    The external primitives are parameters of the development; these
    instances make the helpers run on examples. *)

Definition dquote : ascii := ascii_of_nat 34.

Fixpoint double_quotes (s : string) : string :=
  match s with
  | EmptyString => EmptyString
  | String c s' =>
      if Ascii.eqb c dquote then String c (String c (double_quotes s'))
      else String c (double_quotes s')
  end.

(** Modelled from the spec: formatting.as.name is not under src/;
    [name(text)] returns a double-quote-escaped SQL identifier. *)
Definition quote_name (s : string) : string :=
  String dquote (double_quotes s) ++ String dquote EmptyString.

(** A rendering of numbers and texts as SQL literals; it stands for the
    external formatter on examples. *)
Definition literal (m : string) (v : value) : string :=
  match v with
  | VNum n => NilEmpty.string_of_int (Z.to_int n)
  | VStr s => if m =? "^" then s else "'" ++ s ++ "'"
  | VBool true => "true"
  | VBool false => "false"
  | _ => "null"
  end.

(** The text up to the first closing brace, and the text after it. *)
Fixpoint until_brace (s : string) : string * string :=
  match s with
  | EmptyString => (EmptyString, EmptyString)
  | String c s' =>
      if Ascii.eqb c "}"%char then (EmptyString, s')
      else let '(body, rest) := until_brace s' in (String c body, rest)
  end.

(** One named token [name] or [name+modifier], filled from [obj]. *)
Definition literal_token (body : string) (obj : value) : string :=
  match match_modifier body with
  | Some m => literal (m_text m) (get obj (substr_upto body (m_index m)))
  | None => literal "" (get obj body)
  end.

(** Named tokens filled in one pass; [fuel] bounds the template's length. *)
Fixpoint literal_named_from (fuel : nat) (template : string) (obj : value) : string :=
  match fuel, template with
  | S fuel', String c (String d rest as tail) =>
      if Ascii.eqb c "$"%char && Ascii.eqb d "{"%char then
        let '(body, rest') := until_brace rest in
        literal_token body obj ++ literal_named_from fuel' rest' obj
      else String c (literal_named_from fuel' tail obj)
  | _, _ => template
  end.

Definition literal_named (template : string) (obj : value) : string :=
  literal_named_from (String.length template) template obj.

(** Callbacks for examples: function 0 doubles a number, function 1 answers
    whether its receiver lacks the property it is asked about, function 2
    returns 7, any other function returns its argument. *)
Definition sample_call (f : nat) (this arg : value) : value :=
  match f, arg with
  | 0, VNum n => VNum (2 * n)
  | 1, VStr k => VBool (negb (has_property k this))
  | 2, _ => VNum 7
  | _, _ => arg
  end.

Definition sample_toString (v : value) : string := literal "^" v.

(** The columns of the examples: [?id], [val], [msg]. *)
Definition sample_columns : list Column :=
  [mkColumn "id" None None None (Some true) None None None "${id}" "" (quote_name "id");
   mkColumn "val" None None None None None None None "${val}" "" (quote_name "val");
   mkColumn "msg" None None None None None None None "${msg}" "" (quote_name "msg")].

Definition sample_set : ColumnSet := mkColumnSet None sample_columns None None None.

(** Columns with a [skip]: [val] is skipped when the object lacks it; the
    conditional [id] has a [skip] too. *)
Definition skipping_columns : list Column :=
  [mkColumn "id" None None None (Some true) None None (Some 1) "${id}" ""
            (quote_name "id");
   mkColumn "val" None None None None None None (Some 1) "${val}" ""
            (quote_name "val");
   mkColumn "msg" None None None None None None None "${msg}" "" (quote_name "msg")].

Definition skipping_set : ColumnSet := mkColumnSet None skipping_columns None None None.

(** A column [name] with the default 5 and, in the second, an [init] that
    doubles. *)
Definition with_default : Column :=
  mkColumn "name" None None None None (Some (VNum 5)) None None "${name}" ""
           (quote_name "name").

Definition with_default_init : Column :=
  mkColumn "name" None None None None (Some (VNum 5)) (Some 0) None "${name}" ""
           (quote_name "name").


(** The rows of the examples. *)
Definition sample_rows : list value :=
  [object [own "id" (VNum 1); own "val" (VNum 123); own "msg" (VStr "hello")];
   object [own "id" (VNum 2); own "val" (VNum 456); own "msg" (VStr "world!")]].

(** An aggregate whose only column is conditional. *)
Definition conditional_set : ColumnSet :=
  mkColumnSet None
    [mkColumn "id" None None None (Some true) None None None "${id}" "" (quote_name "id")]
    None None None.

Section Helpers.

(** [formatting.as.name]: the external primitive that escapes an identifier. *)
Variable as_name : string -> string.

(** What a function value returns when called as [f.call(this, arg)]; the
    callbacks are taken to be pure and to return. *)
Variable call : nat -> value -> value -> value.

(** The first branch of the constructor: [typeof col === 'string']. *)
Definition column_of_string (col : string) : raw_column :=
  let tmp := stripCnd col in
  let cnd := if col =? tmp then None else Some true in
  let col := tmp in
  match match_modifier col with
  | Some m =>
      mkRaw (Some (VStr (substr_upto col (m_index m)))) None (Some (m_text m))
            None cnd None None None
  | None =>
      mkRaw (Some (VStr col)) None None None cnd None None None
  end.

(** The second branch: [col && typeof col === 'object']. *)
Definition column_of_config (col : value) : raw_column :=
  mkRaw
    (if has_property "name" col then Some (get col "name") else None)
    (if has_property "prop" col then Some (get col "prop") else None)
    (if truthy (get col "mod") && (typeof (get col "mod") =? "string")
     then Some (text_of (get col "mod")) else None)
    (if isText (get col "cast") then Some (getCastName (text_of (get col "cast"))) else None)
    (if has_property "cnd" col then Some (truthy (get col "cnd")) else None)
    (if has_property "def" col then Some (get col "def") else None)
    (match get col "init" with VFun f => Some f | _ => None end)
    (match get col "skip" with VFun f => Some f | _ => None end).

(** The checks and the derived fields that end the constructor. *)
Definition column_finish (this : raw_column) : result Column :=
  let this_name := match raw_name this with Some v => v | None => VUndefined end in
  if negb (isText this_name) then
    Throw (TypeError "A column name must be a non-empty text string.")
  else if match raw_prop this with Some p => negb (isText p) | None => false end then
    Throw (TypeError "A property name must be a non-empty text string.")
  else
    let name := text_of this_name in
    let prop := option_map text_of (raw_prop this) in
    let variable :=
      "${" ++ match prop with Some p => if p =? "" then name else p | None => name end
           ++ or_empty (raw_mod this) ++ "}" in
    let castText :=
      match raw_cast this with
      | Some c => if c =? "" then "" else "::" ++ c
      | None => ""
      end in
    Ok (mkColumn name prop (raw_mod this) (raw_cast this) (raw_cnd this)
                 (raw_def this) (raw_init this) (raw_skip this)
                 variable castText (as_name name)).

(** [new Column(col)]. *)
Definition Column_new (col : value) : result Column :=
  match col with
  | VStr s => column_finish (column_of_string s)
  | _ =>
      if truthy col && (typeof col =? "object") then column_finish (column_of_config col)
      else Throw (TypeError "A column must be a string or a configurator object.")
  end.

(** ** tableName.js *)

(** [new TableName(table, schema)]. *)
Definition TableName_new (table schema : value) : result TableName :=
  let record := truthy table && (typeof table =? "object") && has_property "table" table in
  let schema := if record then get table "schema" else schema in
  let table := if record then get table "table" else table in
  if negb (isText table) then
    Throw (TypeError "Table name must be non-empty text string.")
  else
    this_schema <-
      (if negb (isNull schema) then
         if negb (typeof schema =? "string") then Throw (TypeError "Invalid schema name.")
         else if Nat.ltb 0 (String.length (text_of schema)) then Ok (Some (text_of schema))
         else Ok None
       else Ok None) ;;
    let name := as_name (text_of table) in
    let name :=
      match this_schema with
      | Some s => if s =? "" then name else as_name (text_of schema) ++ "." ++ name
      | None => name
      end in
    Ok (mkTableName (text_of table) this_schema name).

(** [isNull(table)], [!table] and [table instanceof TableName] on a table
    argument. *)
Definition table_isNull (t : table_arg) : bool :=
  match t with
  | TableValue v => isNull v
  | TableInstance _ => false
  end.

Definition table_truthy (t : table_arg) : bool :=
  match t with
  | TableValue v => truthy v
  | TableInstance _ => true
  end.

(** [(table instanceof TableName) ? table : new TableName(table)]. *)
Definition table_instance (t : table_arg) : result TableName :=
  match t with
  | TableInstance tn => Ok tn
  | TableValue v => TableName_new v VUndefined
  end.

(** ** columnSet.js *)

(** The names [for (var name in columns)] visits when [columns] is itself a
    ColumnSet: its own enumerable members in assignment order (the getters
    [names] and [variables] are not enumerable), then those of the prototype;
    each with what [columns.hasOwnProperty] answers for it, which is the
    function of [Object.prototype]. *)
Definition ColumnSet_members (cs : ColumnSet) : list (string * bool) :=
  ((match cs_table cs with Some _ => [("table", true)] | None => [] end)
   ++ [("columns", true); ("getUpdates", true); ("canUpdate", true); ("prepare", true);
       ("toString", false); ("inspect", false)])%list.

(** The part of the constructor that reads [options]: the [table] it assigns
    to [this], if any, and the local variable [inherit]. *)
Definition ColumnSet_options (options : options_arg) : result (option TableName * value) :=
  match options with
  | OptionsValue o =>
      if negb (isNull o) then
        if negb (typeof o =? "object") then
          Throw (TypeError "Invalid parameter 'options' specified.")
        else if negb (isNull (get o "table")) then
          t <- TableName_new (get o "table") VUndefined ;;
          Ok (Some t, get o "inherit")
        else Ok (None, get o "inherit")
      else Ok (None, VUndefined)
  | OptionsTable t inherit => Ok (Some t, inherit)
  end.

(** [columns.hasOwnProperty(name)]: the method is the property the object
    answers to that name.  The function of [Object.prototype] tells whether
    the property is the object's own, any other function is called, and what
    is not a function cannot be called: the engine throws a TypeError (the
    message is V8's). *)
Definition hasOwnProperty (columns : value) (name : string) : result bool :=
  match get columns "hasOwnProperty" with
  | VFun f =>
      if Nat.eqb f Object_hasOwnProperty then Ok (own_property columns name)
      else Ok (truthy (call f columns (VStr name)))
  | _ => Throw (TypeError "columns.hasOwnProperty is not a function")
  end.

(** The loop [for (var name in columns)] over the names left to visit:
    [inherit || columns.hasOwnProperty(name)] is tested before the Column of
    the name is made, and the first exception ends the loop. *)
Fixpoint ColumnSet_for_in (columns inherit : value) (names : list string)
  : result (list Column) :=
  match names with
  | [] => Ok []
  | name :: names' =>
      keep <- (if truthy inherit then Ok true else hasOwnProperty columns name) ;;
      if keep : bool then
        c <- Column_new (VStr name) ;;
        cs <- ColumnSet_for_in columns inherit names' ;;
        Ok (c :: cs)
      else ColumnSet_for_in columns inherit names'
  end.

(** [new ColumnSet(columns, options)]. *)
Definition ColumnSet_new (columns : columns_arg) (options : options_arg)
  : result ColumnSet :=
  if match columns with
     | ColumnsValue v => negb (truthy v) || negb (typeof v =? "object")
     | _ => false
     end
  then Throw (TypeError "Invalid parameter 'columns' specified.")
  else
    this_table_inherit <- ColumnSet_options options ;;
    let this_table := fst this_table_inherit in
    let inherit := snd this_table_inherit in
    let of_spec (c : column_spec) :=
      match c with
      | SpecColumn c => Ok c
      | SpecValue v => Column_new v
      end in
    let of_names (names : list (string * bool)) :=
      mapM (fun name => Column_new (VStr (fst name)))
           (filter (fun name => truthy inherit || snd name) names) in
    this_columns <-
      (match columns with
       | ColumnsArray l => mapM of_spec l
       | ColumnsValue (VArr l) => mapM Column_new l
       | ColumnsColumn c => Ok [c]
       | ColumnsValue v => ColumnSet_for_in v inherit (for_in v)
       | ColumnsSet cs => of_names (ColumnSet_members cs)
       end) ;;
    Ok (mkColumnSet this_table this_columns None None None).

(** A cache variable of the closure as a condition: [undefined] and the empty
    string are falsy. *)
Definition cached (v : option string) : bool :=
  match v with
  | Some s => negb (s =? "")
  | None => false
  end.

(** The getter of [names]: the value read and the aggregate afterwards. *)
Definition names (this : ColumnSet) : string * ColumnSet :=
  if negb (cached (cs_names this)) then
    let names := join (map col_escapedName (cs_columns this)) in
    let names := if negb (names =? "") then "(" ++ names ++ ")" else names in
    (names, mkColumnSet (cs_table this) (cs_columns this) (Some names)
                        (cs_variables this) (cs_updates this))
  else (or_empty (cs_names this), this).

(** The getter of [variables]. *)
Definition variables (this : ColumnSet) : string * ColumnSet :=
  if negb (cached (cs_variables this)) then
    let variables := join (map col_variable (cs_columns this)) in
    (variables, mkColumnSet (cs_table this) (cs_columns this) (cs_names this)
                            (Some variables) (cs_updates this))
  else (or_empty (cs_variables this), this).

(** The callback of [$filter] in [getUpdates], run over the columns: the
    columns kept, whether [dynamic] was set, and the calls made. *)
Fixpoint updates_filter (obj : value) (cols : list Column)
  : list Column * bool * list call_event :=
  match cols with
  | [] => ([], false, [])
  | c :: cols' =>
      let '(kept, dynamic, calls) := updates_filter obj cols' in
      if is_cnd c then (kept, dynamic, calls)
      else
        match col_skip c with
        | Some f =>
            let arg := VStr (prop_or_name c) in
            if truthy (call f obj arg) then (kept, true, mkCall f obj arg :: calls)
            else (c :: kept, true, mkCall f obj arg :: calls)
        | None => (c :: kept, dynamic, calls)
        end
  end.

(** The result of a method together with the aggregate afterwards and the
    callbacks it invoked, in order. *)
Record outcome (A : Type) : Type := mkOutcome {
  returned : A;
  after : ColumnSet;
  calls : list call_event
}.

(** [this.getUpdates(obj)]. *)
Definition getUpdates (this : ColumnSet) (obj : value) : outcome string :=
  if cached (cs_updates this) then mkOutcome (or_empty (cs_updates this)) this []
  else
    let '(kept, dynamic, calls) := updates_filter obj (cs_columns this) in
    let list :=
      join (map (fun c => col_escapedName c ++ "=" ++ col_variable c ++ col_castText c) kept) in
    if negb dynamic then
      mkOutcome list (mkColumnSet (cs_table this) (cs_columns this) (cs_names this)
                                  (cs_variables this) (Some list)) calls
    else mkOutcome list this calls.

(** [arr.$countIf(f)]. *)
Definition countIf {A : Type} (f : A -> bool) (l : list A) : nat :=
  List.length (filter f l).

(** The [$forEach] loop of [canUpdate] on a single object: the counters [cnd]
    and [skip] and the calls made. *)
Fixpoint canUpdate_count (data : value) (cols : list Column) (cnd skip : nat)
  : nat * nat * list call_event :=
  match cols with
  | [] => (cnd, skip, [])
  | c :: cols' =>
      let cnd := cnd + (if is_cnd c then 1 else 0) in
      match col_skip c with
      | Some f =>
          let arg := VStr (prop_or_name c) in
          let skip := skip + (if truthy (call f data arg) then 1 else 0) in
          let '(cnd', skip', calls) := canUpdate_count data cols' cnd skip in
          (cnd', skip', mkCall f data arg :: calls)
      | None => canUpdate_count data cols' cnd skip
      end
  end.

(** [this.canUpdate(data)]: the result and the callbacks invoked. *)
Definition canUpdate (this : ColumnSet) (data : value) : result bool * list call_event :=
  if negb (truthy data) || negb (typeof data =? "object") then
    (Throw (TypeError "Invalid parameter 'data' specified."), [])
  else
    let total := List.length (cs_columns this) in
    if isArray data then
      let cnd := countIf is_cnd (cs_columns this) in
      (Ok (Nat.ltb cnd total && truthy_gt0 (get data "length")), [])
    else
      let '(cnd, skip, calls) := canUpdate_count data (cs_columns this) 0 0 in
      (Ok (Nat.ltb (cnd + skip) total), calls).

(** One turn of the [$forEach] loop of [prepare]: the properties of [target]
    afterwards and the calls made.  [target] is the object [{}] at first. *)
Definition prepare_column (obj : value) (target : list (property value)) (c : Column)
  : list (property value) * list call_event :=
  let name := prop_or_name c in
  if has_property name obj then
    let value := get obj name in
    match col_init c with
    | Some f => (set_property name (call f obj value) target, [mkCall f obj value])
    | None => (set_property name value target, [])
    end
  else
    let value := match col_def c with Some d => d | None => VUndefined end in
    let target := match col_def c with Some d => set_property name d target | None => target end in
    match col_init c with
    | Some f => (set_property name (call f obj value) target, [mkCall f obj value])
    | None => (target, [])
    end.

Fixpoint prepare_loop (obj : value) (target : list (property value)) (cols : list Column)
  : list (property value) * list call_event :=
  match cols with
  | [] => (target, [])
  | c :: cols' =>
      let '(target1, calls1) := prepare_column obj target c in
      let '(target2, calls2) := prepare_loop obj target1 cols' in
      (target2, (calls1 ++ calls2)%list)
  end.

(** [this.prepare(obj)] for an object [obj] (on anything else the [in]
    operator throws; the callers test [obj] first): the object returned and
    the callbacks invoked. *)
Definition prepare (this : ColumnSet) (obj : value) : value * list call_event :=
  let '(target, calls) := prepare_loop obj Object_prototype (cs_columns this) in
  (VObj target, calls).

(** *** prepare with the objects held by reference

    The same loop, with the source object and [target] as addresses of a
    heap of objects, each given by its properties: what [prepare] allocates
    and what it assigns. *)







(** ** formatting.as.format *)

(** The external formatter on what this development leaves to it: one value
    rendered under a modifier (the empty string when there is none), and a
    template of named tokens filled from an object. *)
Variable format_value : string -> value -> string.
Variable format_named : string -> value -> string.

Definition is_digit (c : ascii) : bool :=
  Nat.leb 48 (nat_of_ascii c) && Nat.leb (nat_of_ascii c) 57.

(** The digits that start [s], read as a number continuing [acc], and the
    rest of [s]. *)
Fixpoint read_digits (acc : nat) (s : string) : nat * string :=
  match s with
  | String c s' =>
      if is_digit c then read_digits (10 * acc + (nat_of_ascii c - 48)) s'
      else (acc, s)
  | EmptyString => (acc, s)
  end.

(** The index of a positional token: digits, the first of them not 0. *)
Definition read_index (s : string) : option (nat * string) :=
  match s with
  | String c _ =>
      if is_digit c && negb (Ascii.eqb c "0"%char) then Some (read_digits 0 s) else None
  | EmptyString => None
  end.

(** The modifier that may follow a token. *)
Definition read_modifier (s : string) : option string * string :=
  match find (fun m => starts_with m s) modifiers with
  | Some m => (Some m, substr_from s (String.length m))
  | None => (None, s)
  end.

(** A value under a token: raw text ([^] or [:raw]) of a string is the string
    itself, any other rendering is the external formatter's. *)
Definition format_token (m : option string) (v : value) : string :=
  match m, v with
  | Some "^", VStr s => s
  | Some ":raw", VStr s => s
  | _, _ => format_value (or_empty m) v
  end.

(** Substitution of the positional tokens [$1], [$2], ... of a template in
    one pass; [fuel] bounds the length of the template.  A token whose index
    is out of range is left as it is. *)
Fixpoint format_positional (fuel : nat) (template : string) (values : list value) : string :=
  match fuel with
  | O => template
  | S fuel' =>
      match template with
      | EmptyString => EmptyString
      | String c rest =>
          match (if Ascii.eqb c "$"%char then read_index rest else None) with
          | Some (n, rest1) =>
              let '(m, rest2) := read_modifier rest1 in
              match nth_error values (n - 1) with
              | Some v => format_token m v ++ format_positional fuel' rest2 values
              | None => String c (format_positional fuel' rest values)
              end
          | None => String c (format_positional fuel' rest values)
          end
      end
  end.

(** Modelled from the spec: formatting.as.format is not under src/.
    [format(template, values)] substitutes positional tokens ([$1], [$2], ...,
    [$1^] for raw text) when [values] is an array or a single value, and named
    tokens when it is an object. *)
Definition as_format (template : string) (values : value) : string :=
  match values with
  | VArr vs => format_positional (String.length template) template vs
  | VObj _ => format_named template values
  | v => format_positional (String.length template) template [v]
  end.

(** ** methods/update.js *)

(** [v.toString()]: a string is its own text; what any other value answers
    is left to [toString_other]. *)
Variable toString_other : value -> string.

Definition toString (v : value) : string :=
  match v with
  | VStr s => s
  | _ => toString_other v
  end.

Definition upper (c : ascii) : ascii :=
  let n := nat_of_ascii c in
  if Nat.leb 97 n && Nat.leb n 122 then ascii_of_nat (n - 32) else c.

(** [s.toUpperCase()] on the code units of ASCII, which the templates of
    [update] are made of. *)
Fixpoint toUpperCase (s : string) : string :=
  match s with
  | EmptyString => EmptyString
  | String c s' => String (upper c) (toUpperCase s')
  end.

(** [isNull(columns)] and [columns || data] on a columns argument that is not
    a ColumnSet. *)
Definition columns_isNull (columns : columns_arg) : bool :=
  match columns with
  | ColumnsValue v => isNull v
  | _ => false
  end.

Definition columns_or (columns : columns_arg) (data : value) : columns_arg :=
  match columns with
  | ColumnsValue v => if truthy v then columns else ColumnsValue data
  | _ => columns
  end.

(** The callback of [data.$map] in the multi-row branch, run from [index] on:
    the tuples, and the aggregate after the reads of [columns.variables]. *)
Fixpoint update_values (columns : ColumnSet) (index : nat) (data : list value)
  : result (list string * ColumnSet) :=
  match data with
  | [] => Ok ([], columns)
  | d :: data' =>
      if negb (truthy d) || negb (typeof d =? "object") then
        Throw (Error ("Invalid update object at index " ++ string_of_nat index ++ "."))
      else
        let '(vars, columns1) := variables columns in
        let row := "(" ++ as_format vars (fst (prepare columns1 d)) ++ ")" in
        rest <- update_values columns1 (S index) data' ;;
        Ok (row :: fst rest, snd rest)
  end.

Definition errNoColumns : string := "Cannot generate a valid UPDATE without any columns.".

(** The part of [update] that settles [columns] and [table]: a ColumnSet is
    used as it is and lends its table when none is given; anything else is
    made into a ColumnSet, from [columns] or else from [data]. *)
Definition update_columns (data : value) (columns : columns_arg) (table : table_arg)
  : result (ColumnSet * table_arg) :=
  match columns with
  | ColumnsSet cs =>
      if table_isNull table then
        Ok (cs, match cs_table cs with
                | Some t => TableInstance t
                | None => TableValue VUndefined
                end)
      else Ok (cs, table)
  | _ =>
      if isArray data && columns_isNull columns then
        Throw (TypeError "Parameter 'columns' is required when updating multiple records.")
      else
        cs <- ColumnSet_new (columns_or columns data) (OptionsValue VUndefined) ;;
        Ok (cs, table)
  end.

(** [update(data, columns, table, options, capSQL)]. *)
Definition update (data : value) (columns : columns_arg) (table : table_arg)
                  (options capSQL : value) : result string :=
  if negb (truthy data) || negb (typeof data =? "object") then
    Throw (TypeError "Invalid parameter 'data' specified.")
  else
    let isArr := isArray data in
    columns_table <- update_columns data columns table ;;
    let columns := fst columns_table in
    let table := snd columns_table in
    if isArr && negb (truthy (get data "length")) then
      Throw (TypeError "Cannot generate an UPDATE from an empty array.")
    else if negb (isNull options) && negb (typeof options =? "object") then
      Throw (TypeError "Invalid parameter 'options' specified.")
    else if negb (table_truthy table) then
      Throw (Error "Table name is unknown.")
    else
      table <- table_instance table ;;
      match data with
      | VArr items =>
          let tableAlias :=
            if truthy options && truthy (get options "tableAlias")
            then toString (get options "tableAlias") else "t" in
          let valueAlias :=
            if truthy options && truthy (get options "valueAlias")
            then toString (get options "valueAlias") else "v" in
          let query := "update $1^ as $2^ set $3^ from (values$4^) as $5^" in
          let query := if truthy capSQL then toUpperCase query else query in
          let actualColumns := filter (fun c => negb (is_cnd c)) (cs_columns columns) in
          if Nat.eqb (List.length actualColumns) 0 then Throw (Error errNoColumns)
          else
            let targetCols :=
              join (map (fun c => col_escapedName c ++ "=" ++ valueAlias ++ "."
                                   ++ col_escapedName c ++ col_castText c)
                        actualColumns) in
            values_columns <- update_values columns 0 items ;;
            let values := join (fst values_columns) in
            let columns := snd values_columns in
            Ok (as_format query
                  (VArr [VStr (tn_name table); VStr tableAlias; VStr targetCols;
                         VStr values; VStr (valueAlias ++ fst (names columns))]))
      | _ =>
          let got := getUpdates columns data in
          let updates := returned got in
          let columns := after got in
          if Nat.eqb (String.length updates) 0 then Throw (Error errNoColumns)
          else
            let query := "update $1^ set " in
            let query := if truthy capSQL then toUpperCase query else query in
            Ok (as_format query (VStr (tn_name table))
                ++ as_format updates (fst (prepare columns data)))
      end.

Unset Implicit Arguments.

(** ** Notions of the specification *)

(** A value that passes [v && typeof v === 'object']. *)
Definition is_object (v : value) : bool :=
  truthy v && (typeof v =? "object").


(** The call of the [init] of [c] that [prepare] makes for [obj]. *)
Definition init_calls (obj : value) (c : Column) : list call_event :=
  match col_init c with
  | Some f =>
      [mkCall f obj
         (if has_property (prop_or_name c) obj then get obj (prop_or_name c)
          else match col_def c with Some d => d | None => VUndefined end)]
  | None => []
  end.




(** A fixed word of a statement, in the case [capSQL] asks for. *)
Definition keyword (capSQL : value) (s : string) : string :=
  if truthy capSQL then toUpperCase s else s.

(** An alias of the multi-row update: the option [k] as text when it is set
    and truthy, else the default. *)
Definition alias (options : value) (k default : string) : string :=
  if truthy options && truthy (get options k) then toString (get options k) else default.

(** A text value that is not empty. *)
Definition nonempty_string (v : value) : Prop :=
  exists s, v = VStr s /\ s <> "".

(** The record form of the TableName arguments, and the table and schema
    that count. *)
Definition record_form (table : value) : bool :=
  truthy table && (typeof table =? "object") && has_property "table" table.

Definition effective_table (table : value) : value :=
  if record_form table then get table "table" else table.

Definition effective_schema (table schema : value) : value :=
  if record_form table then get table "schema" else schema.

(** An aggregate as the constructor leaves it: nothing cached. *)
Definition fresh (cs : ColumnSet) : Prop :=
  cs_names cs = None /\ cs_variables cs = None /\ cs_updates cs = None.

(** The aggregate at a later time of its life: after any number of reads of
    [names] and [variables] and calls of [getUpdates] ([canUpdate] and
    [prepare] assign nothing). *)
Inductive later : ColumnSet -> ColumnSet -> Prop :=
| later_now (cs : ColumnSet) : later cs cs
| later_names (cs cs' : ColumnSet) : later cs cs' -> later cs (snd (names cs'))
| later_variables (cs cs' : ColumnSet) : later cs cs' -> later cs (snd (variables cs'))
| later_getUpdates (cs cs' : ColumnSet) (obj : value) :
    later cs cs' -> later cs (after (getUpdates cs' obj)).

(** The text of [names] for the columns [cols]. *)
Definition names_text (cols : list Column) : string :=
  let names := join (map col_escapedName cols) in
  if negb (names =? "") then "(" ++ names ++ ")" else names.

(** One assignment of the SET clause of a single-object update. *)
Definition assignment (c : Column) : string :=
  col_escapedName c ++ "=" ++ col_variable c ++ col_castText c.

(** [c.skip.call(obj, c.prop || c.name)] answers truthy. *)
Definition skipped (obj : value) (c : Column) : bool :=
  match col_skip c with
  | Some f => truthy (call f obj (VStr (prop_or_name c)))
  | None => false
  end.

(** A column that contributes to the updates and defines [skip]. *)
Definition dynamic_column (c : Column) : bool :=
  negb (is_cnd c) && match col_skip c with Some _ => true | None => false end.

(** The call of the [skip] of [c] on [obj]. *)
Definition skip_calls (obj : value) (c : Column) : list call_event :=
  match col_skip c with
  | Some f => [mkCall f obj (VStr (prop_or_name c))]
  | None => []
  end.

(** The caches of an aggregate hold what their fields were computed to. *)
Definition consistent (cs : ColumnSet) : Prop :=
  (cs_names cs = None \/ cs_names cs = Some (names_text (cs_columns cs)))
  /\ (cs_variables cs = None
      \/ cs_variables cs = Some (join (map col_variable (cs_columns cs))))
  /\ (cs_updates cs = None
      \/ (existsb dynamic_column (cs_columns cs) = false
          /\ cs_updates cs =
             Some (join (map assignment
                             (filter (fun c => negb (is_cnd c)) (cs_columns cs)))))).

(** [n] copies of a code unit. *)
Fixpoint replicate (n : nat) (c : ascii) : string :=
  match n with
  | O => EmptyString
  | S n' => String c (replicate n' c)
  end.

(** A modifier token is found at position [i] of [s]. *)
Definition token_at (s : string) (i : nat) : Prop :=
  exists tok pre post,
    In tok modifiers /\ s = pre ++ tok ++ post /\ String.length pre = i.

(** The split of the remainder that the specification describes: at the first
    occurrence of a token, or not at all. *)
Definition first_token_split (rest nm : string) (md : option string) : Prop :=
  (exists tok post,
      md = Some tok /\ In tok modifiers /\ rest = nm ++ tok ++ post
      /\ forall i, i < String.length nm -> ~ token_at rest i)
  \/ (md = None /\ nm = rest /\ forall i, ~ token_at rest i).


(** The column of a property name [k] taken as it is: same name, same
    property, nothing else set. *)
Definition same_named (k : string) : Column :=
  mkColumn k None None None None None None None ("${" ++ k ++ "}") "" (as_name k).

(** One assignment of the SET clause of a multi-row update. *)
Definition assignment_from (valueAlias : string) (c : Column) : string :=
  col_escapedName c ++ "=" ++ valueAlias ++ "." ++ col_escapedName c ++ col_castText c.

(** One tuple of the VALUES list of a multi-row update. *)
Definition tuple (cs : ColumnSet) (d : value) : string :=
  "(" ++ as_format (join (map col_variable (cs_columns cs))) (fst (prepare cs d)) ++ ")".

(** A column that has the destination name [nm], the modifier [md] and the
    conditional flag [cnd], and nothing else. *)
Definition plain_column (c : Column) (nm : string) (md : option string) (cnd : bool) : Prop :=
  col_name c = nm /\ col_mod c = md /\ is_cnd c = cnd /\ col_prop c = None
  /\ col_cast c = None /\ col_def c = None /\ col_init c = None /\ col_skip c = None.

(** ** index.js *)

(** [a && b]. *)
Definition and_value (a b : value) : value :=
  if truthy a then b else a.

(** [helpers(config).update(data, columns, table, options)], for the object
    [config] the library is initialized with: [capSQL] is read from
    [config.options]. *)
Definition helpers_update (config data : value) (columns : columns_arg)
                          (table : table_arg) (options : value) : result string :=
  let capSQL := and_value (get config "options") (get (get config "options") "capSQL") in
  update data columns table options capSQL.

(** ** Further notions *)

(** The string form that denotes a column made from a string: a question
    mark when it is conditional, its name, its modifier. *)
Definition Column_text (c : Column) : string :=
  (if is_cnd c then "?" else "") ++ col_name c ++ or_empty (col_mod c).

(** What the constructor of ColumnSet makes of one element of an array:
    [(c instanceof Column) ? c : new Column(c)]. *)
Definition column_of_spec (spec : column_spec) : result Column :=
  match spec with
  | SpecColumn c => Ok c
  | SpecValue v => Column_new v
  end.

(** A TableName instance as an object: its own properties, in the order the
    constructor assigns them, and what it inherits from its class. *)
Definition TableName_fields (t : TableName) : value :=
  instance "TableName"
    ((match tn_schema t with Some s => [own "schema" (VStr s)] | None => [] end)
     ++ [own "table" (VStr (tn_table t)); own "name" (VStr (tn_name t))])%list.

(** A column that a single-object update of [obj] assigns: not conditional,
    not skipped. *)
Definition assigned (obj : value) (c : Column) : bool :=
  negb (is_cnd c) && negb (skipped obj c).

(** The aggregate [cs] with another [table]. *)
Definition with_table (cs : ColumnSet) (t : option TableName) : ColumnSet :=
  mkColumnSet t (cs_columns cs) (cs_names cs) (cs_variables cs) (cs_updates cs).

(** A Column instance as an object: its fields, those that are set, and what
    it inherits from its class. *)
Definition Column_fields (c : Column) : value :=
  instance "Column"
       ([own "name" (VStr (col_name c))]
        ++ match col_prop c with Some p => [own "prop" (VStr p)] | None => [] end
        ++ match col_mod c with Some m => [own "mod" (VStr m)] | None => [] end
        ++ match col_cast c with Some t => [own "cast" (VStr t)] | None => [] end
        ++ match col_cnd c with Some b => [own "cnd" (VBool b)] | None => [] end
        ++ match col_def c with Some d => [own "def" d] | None => [] end
        ++ match col_init c with Some f => [own "init" (VFun f)] | None => [] end
        ++ match col_skip c with Some f => [own "skip" (VFun f)] | None => [] end
        ++ [own "variable" (VStr (col_variable c));
            own "castText" (VStr (col_castText c));
            own "escapedName" (VStr (col_escapedName c))])%list.

(** The column [c] without its [skip], and an aggregate without any. *)
Definition without_skip (c : Column) : Column :=
  mkColumn (col_name c) (col_prop c) (col_mod c) (col_cast c) (col_cnd c) (col_def c)
           (col_init c) None (col_variable c) (col_castText c) (col_escapedName c).

Definition ColumnSet_without_skip (cs : ColumnSet) : ColumnSet :=
  mkColumnSet (cs_table cs) (map without_skip (cs_columns cs))
              (cs_names cs) (cs_variables cs) (cs_updates cs).

(** * Properties *)

(** ** Strings *)

Lemma append_nil_r (s : string) : s ++ "" = s.
Proof. induction s as [|c s IH]; simpl; [reflexivity | now rewrite IH]. Qed.

Lemma append_assoc (a b c : string) : (a ++ b) ++ c = a ++ b ++ c.
Proof. induction a as [|x a IH]; simpl; [reflexivity | now rewrite IH]. Qed.

Lemma length_append (a b : string) :
  String.length (a ++ b) = String.length a + String.length b.
Proof. induction a as [|x a IH]; simpl; [reflexivity | now rewrite IH]. Qed.

Lemma starts_with_append (p s : string) :
  starts_with p s = true <-> exists t, s = p ++ t.
Proof.
  revert s; induction p as [|c p IH]; intros s; simpl.
  - split; [intros _; now exists s | reflexivity].
  - destruct s as [|d s].
    + split; [discriminate | intros [t H]; discriminate].
    + destruct (Ascii.eqb_spec c d) as [->|Hcd]; simpl.
      * rewrite IH. split; intros [t H]; exists t; [now rewrite H | now inversion H].
      * split; [discriminate | intros [t H]; congruence].
Qed.

Lemma substr_split (s : string) (n : nat) :
  s = substr_upto s n ++ substr_from s n.
Proof.
  revert s; induction n as [|n IH]; intros s; simpl.
  - reflexivity.
  - destruct s as [|c s]; simpl; [reflexivity | now rewrite <- IH].
Qed.

Lemma substr_from_append (pre s : string) :
  substr_from (pre ++ s) (String.length pre) = s.
Proof. induction pre as [|c pre IH]; simpl; [now destruct s | exact IH]. Qed.

Lemma substr_upto_append (pre s : string) :
  substr_upto (pre ++ s) (String.length pre) = pre.
Proof. induction pre as [|c pre IH]; simpl; [now destruct s | now rewrite IH]. Qed.

Lemma length_replicate (n : nat) (c : ascii) : String.length (replicate n c) = n.
Proof. induction n as [|n IH]; simpl; [reflexivity | now rewrite IH]. Qed.

(** ** column.js: the loop of stripCnd *)

Lemma skip_leading_split (ch : ascii) (s : string) :
  s = replicate (skip_leading ch s) ch ++ substr_from s (skip_leading ch s)
  /\ forall t, substr_from s (skip_leading ch s) <> String ch t.
Proof.
  induction s as [|c s [IH1 IH2]]; simpl.
  - split; [reflexivity | discriminate].
  - destruct (Ascii.eqb_spec c ch) as [->|Hne]; simpl.
    + split; [now rewrite <- IH1 | exact IH2].
    + split; [reflexivity | intros t H; congruence].
Qed.

Lemma skip_leading_replicate (ch : ascii) (n : nat) (rest : string) :
  (forall t, rest <> String ch t) ->
  skip_leading ch (replicate n ch ++ rest) = n.
Proof.
  intros Hrest; induction n as [|n IH]; simpl.
  - destruct rest as [|c rest]; [reflexivity|].
    simpl. destruct (Ascii.eqb_spec c ch) as [->|]; [now destruct (Hrest rest) | reflexivity].
  - now rewrite Ascii.eqb_refl, IH.
Qed.

Lemma stripCnd_substr (s : string) :
  stripCnd s = substr_from s (skip_leading "?"%char s).
Proof.
  unfold stripCnd. destruct (skip_leading "?"%char s); reflexivity.
Qed.

Lemma stripCnd_changed (s : string) :
  (s =? stripCnd s) = Nat.eqb (skip_leading "?"%char s) 0.
Proof.
  rewrite stripCnd_substr.
  destruct (skip_leading_split "?"%char s) as [Hs _].
  destruct (skip_leading "?"%char s) as [|n] eqn:E.
  - apply String.eqb_refl.
  - change (Nat.eqb (S n) 0) with false. apply String.eqb_neq. intros H.
    apply (f_equal String.length) in Hs.
    rewrite length_append, length_replicate in Hs. rewrite <- H in Hs. lia.
Qed.

(** ** column.js: the match of the modifier *)

Lemma match_modifier_eq (col : string) :
  match_modifier col =
  match find (fun m => starts_with m col) modifiers with
  | Some m => Some (mkMatch 0 m)
  | None =>
      match col with
      | EmptyString => None
      | String _ col' =>
          match match_modifier col' with
          | Some r => Some (mkMatch (S (m_index r)) (m_text r))
          | None => None
          end
      end
  end.
Proof. destruct col; reflexivity. Qed.

Lemma token_at_0 (s : string) :
  token_at s 0 <-> exists m, In m modifiers /\ starts_with m s = true.
Proof.
  split.
  - intros (tok & pre & post & Hin & Hs & Hlen).
    destruct pre; [|discriminate]. exists tok; split; [exact Hin|].
    apply starts_with_append. now exists post.
  - intros (m & Hin & Hm). apply starts_with_append in Hm as [post Hs].
    now exists m, "", post.
Qed.

Lemma token_at_S (c : ascii) (s : string) (i : nat) :
  token_at (String c s) (S i) <-> token_at s i.
Proof.
  split.
  - intros (tok & pre & post & Hin & Hs & Hlen).
    destruct pre as [|d pre]; [discriminate|].
    simpl in Hs, Hlen. inversion Hs; subst. exists tok, pre, post; auto.
  - intros (tok & pre & post & Hin & Hs & Hlen).
    exists tok, (String c pre), post. subst; auto.
Qed.

Lemma find_modifier_none (s : string) :
  find (fun m => starts_with m s) modifiers = None -> ~ token_at s 0.
Proof.
  intros Hf Ht. apply token_at_0 in Ht as (m & Hin & Hm).
  now rewrite (find_none _ _ Hf m Hin) in Hm.
Qed.

Lemma match_modifier_some (s : string) (r : regmatch) :
  match_modifier s = Some r ->
  In (m_text r) modifiers
  /\ String.length (substr_upto s (m_index r)) = m_index r
  /\ (exists post, s = substr_upto s (m_index r) ++ m_text r ++ post)
  /\ forall i, i < m_index r -> ~ token_at s i.
Proof.
  revert r; induction s as [|c s IH]; intros r; rewrite match_modifier_eq;
    destruct (find _ modifiers) as [m|] eqn:Hf.
  - intros [= <-]. apply find_some in Hf as [Hin Hm]. simpl.
    apply starts_with_append in Hm as [post Hs].
    repeat split; [exact Hin | now exists post | lia].
  - discriminate.
  - intros [= <-]. apply find_some in Hf as [Hin Hm]. simpl.
    apply starts_with_append in Hm as [post Hs].
    repeat split; [exact Hin | now exists post | lia].
  - destruct (match_modifier s) as [r'|]; [|discriminate].
    intros [= <-]. destruct (IH r' eq_refl) as (Hin & Hlen & [post Hs] & Hno). simpl.
    repeat split; [exact Hin | now rewrite Hlen | exists post; now rewrite <- Hs |].
    intros [|i] Hi; [now apply find_modifier_none | rewrite token_at_S; apply Hno; lia].
Qed.

Lemma match_modifier_none (s : string) :
  match_modifier s = None -> forall i, ~ token_at s i.
Proof.
  induction s as [|c s IH]; rewrite match_modifier_eq;
    destruct (find _ modifiers) as [m|] eqn:Hf; try discriminate.
  - intros _ [|i]; [now apply find_modifier_none|].
    intros (tok & pre & post & _ & Hs & Hlen). destruct pre; discriminate.
  - destruct (match_modifier s) as [r'|]; [discriminate|].
    intros _ [|i]; [now apply find_modifier_none | rewrite token_at_S; now apply IH].
Qed.

(** No two tokens are found at the same place. *)
Lemma modifier_unique (a b x y : string) :
  In a modifiers -> In b modifiers -> a ++ x = b ++ y -> a = b.
Proof.
  unfold modifiers. simpl. intros Ha Hb.
  repeat (destruct Ha as [<-|Ha]; [|]); try destruct Ha;
    repeat (destruct Hb as [<-|Hb]; [|]); try destruct Hb;
    simpl; intros H; try reflexivity; try discriminate;
    repeat (injection H as _ H); discriminate.
Qed.

(** The string branch of the constructor parses the remainder as the
    specification describes. *)
Lemma column_of_string_split (s : string) :
  exists nm md,
    first_token_split (stripCnd s) nm md
    /\ column_of_string s =
       mkRaw (Some (VStr nm)) None md None
             (if Nat.eqb (skip_leading "?"%char s) 0 then None else Some true)
             None None None.
Proof.
  unfold column_of_string. rewrite stripCnd_changed.
  destruct (match_modifier (stripCnd s)) as [r|] eqn:Hm.
  - destruct (match_modifier_some _ _ Hm) as (Hin & Hlen & [post Hs] & Hno).
    exists (substr_upto (stripCnd s) (m_index r)), (Some (m_text r)). split; [|reflexivity].
    left. exists (m_text r), post. rewrite Hlen. auto.
  - exists (stripCnd s), None. split; [|reflexivity].
    right. repeat split. now apply match_modifier_none.
Qed.

Lemma column_finish_string (nm : string) (md : option string) (cnd : option bool) :
  (nm = "" ->
   column_finish (mkRaw (Some (VStr nm)) None md None cnd None None None)
   = Throw (TypeError "A column name must be a non-empty text string."))
  /\ (nm <> "" ->
      exists c,
        column_finish (mkRaw (Some (VStr nm)) None md None cnd None None None) = Ok c
        /\ plain_column c nm md (match cnd with Some b => b | None => false end)
        /\ col_variable c = "${" ++ nm ++ or_empty md ++ "}"
        /\ col_castText c = ""
        /\ col_escapedName c = as_name nm).
Proof.
  unfold column_finish; simpl. split; intros H.
  - now subst.
  - apply String.eqb_neq in H. rewrite H. simpl.
    eexists; split; [reflexivity|]. unfold plain_column, is_cnd; simpl. repeat split.
Qed.

Lemma isText_nonempty (v : value) : isText v = true <-> nonempty_string v.
Proof.
  split.
  - destruct v; simpl; try discriminate. intros H. exists s; split; [reflexivity|].
    intros ->. discriminate.
  - intros (s & -> & Hs). simpl. apply String.eqb_neq in Hs. now rewrite Hs.
Qed.

(** What every constructed column has: a name that is not empty, and the
    derived fields computed from the others. *)
Lemma Column_new_derived (col : value) (c : Column) :
  Column_new col = Ok c ->
  col_name c <> ""
  /\ col_escapedName c = as_name (col_name c)
  /\ col_castText c
     = match col_cast c with
       | Some t => if t =? "" then "" else "::" ++ t
       | None => ""
       end
  /\ col_variable c = "${" ++ prop_or_name c ++ or_empty (col_mod c) ++ "}".
Proof.
  assert (Hfinish : forall raw, column_finish raw = Ok c ->
            col_name c <> ""
            /\ col_escapedName c = as_name (col_name c)
            /\ col_castText c
               = match col_cast c with
                 | Some t => if t =? "" then "" else "::" ++ t
                 | None => ""
                 end
            /\ col_variable c = "${" ++ prop_or_name c ++ or_empty (col_mod c) ++ "}").
  { intros raw. unfold column_finish.
    destruct (isText match raw_name raw with Some v => v | None => VUndefined end) eqn:Hn;
      [|discriminate]. simpl.
    destruct (match raw_prop raw with Some p => negb (isText p) | None => false end);
      [discriminate|].
    intros [= <-]. unfold prop_or_name. simpl. repeat split.
    apply isText_nonempty in Hn as (t & -> & Ht). exact Ht. }
  unfold Column_new. destruct col; try apply Hfinish;
    match goal with |- (if ?b then _ else _) = _ -> _ => destruct b end;
    try discriminate; apply Hfinish.
Qed.

(** C4: the string form of a column.  Every string is some number of leading
    question marks followed by a remainder that does not start with one; the
    remainder is split at the first occurrence of a modifier token, if any,
    into name and modifier; the column is conditional iff a question mark
    was stripped; and construction throws the TypeError about the name iff
    the name is empty, succeeding with exactly these fields otherwise. *)
Theorem Column_of_string (s : string) :
  exists n rest nm md,
    s = replicate n "?" ++ rest
    /\ (forall t, rest <> String "?" t)
    /\ first_token_split rest nm md
    /\ (nm = "" ->
        Column_new (VStr s) =
        Throw (TypeError "A column name must be a non-empty text string."))
    /\ (nm <> "" ->
        exists c, Column_new (VStr s) = Ok c /\ plain_column c nm md (Nat.ltb 0 n)).
Proof.
  destruct (skip_leading_split "?"%char s) as [Hs Hrest].
  destruct (column_of_string_split s) as (nm & md & Hsplit & Hraw).
  rewrite stripCnd_substr in Hsplit.
  exists (skip_leading "?"%char s), (substr_from s (skip_leading "?"%char s)), nm, md.
  simpl Column_new. rewrite Hraw.
  destruct (column_finish_string nm md
              (if Nat.eqb (skip_leading "?"%char s) 0 then None else Some true))
    as [Hempty Hfull].
  repeat split; [exact Hs | exact Hrest | exact Hsplit | exact Hempty |].
  intros Hnm. destruct (Hfull Hnm) as (c & Hc & Hplain & _).
  exists c; split; [exact Hc|].
  now destruct (skip_leading "?"%char s).
Qed.

(** C10: a string that, once its leading question marks are stripped, is
    empty or begins with a modifier token, is refused with the TypeError
    about the column name. *)
Theorem Column_of_string_no_name (s rest : string) (n : nat) :
  s = replicate n "?" ++ rest ->
  rest = "" \/ (exists tok post, In tok modifiers /\ rest = tok ++ post) ->
  Column_new (VStr s) =
  Throw (TypeError "A column name must be a non-empty text string.").
Proof.
  intros Hs Hrest.
  assert (Hq : forall t, rest <> String "?" t).
  { destruct Hrest as [->|(tok & post & Hin & ->)]; [discriminate|].
    simpl in Hin. intros t.
    repeat (destruct Hin as [<-|Hin]; [discriminate|]). destruct Hin. }
  assert (Hstrip : stripCnd s = rest).
  { rewrite stripCnd_substr, Hs, (skip_leading_replicate _ _ _ Hq).
    rewrite <- (length_replicate n "?") at 2. apply substr_from_append. }
  destruct (column_of_string_split s) as (nm & md & Hsplit & Hraw).
  rewrite Hstrip in Hsplit.
  assert (Hnm : nm = "").
  { destruct Hrest as [->|(tok & post & Hin & Hr)].
    - destruct Hsplit as [(tok & post & _ & _ & H & _)|(_ & H & _)]; [|exact H].
      destruct nm; [reflexivity | discriminate].
    - assert (H0 : token_at rest 0) by (exists tok, "", post; auto).
      destruct Hsplit as [(tok' & post' & _ & _ & _ & Hno)|(_ & _ & Hno)].
      + destruct nm; [reflexivity|]. exfalso. apply (Hno 0); [simpl; lia | exact H0].
      + now destruct (Hno 0). }
  simpl Column_new. rewrite Hraw.
  now apply column_finish_string.
Qed.

(** ** tableName.js *)

Lemma TableName_new_effective (table schema : value) :
  TableName_new table schema =
  let tbl := effective_table table in
  let sch := effective_schema table schema in
  if negb (isText tbl) then Throw (TypeError "Table name must be non-empty text string.")
  else
    this_schema <-
      (if negb (isNull sch) then
         if negb (typeof sch =? "string") then Throw (TypeError "Invalid schema name.")
         else if Nat.ltb 0 (String.length (text_of sch)) then Ok (Some (text_of sch))
         else Ok None
       else Ok None) ;;
    Ok (mkTableName (text_of tbl) this_schema
          match this_schema with
          | Some s => if s =? "" then as_name (text_of tbl)
                      else as_name (text_of sch) ++ "." ++ as_name (text_of tbl)
          | None => as_name (text_of tbl)
          end).
Proof. reflexivity. Qed.

(** C8: construction of a TableName.  With the table and schema that count
    (the fields of the record form, else the two arguments): a table that is
    not a non-empty string is refused with a TypeError; so is a schema that is
    neither null, undefined nor a string; an empty or absent schema leaves
    the schema field unset and the name is the escaped table; a non-empty
    schema is kept and the name is escaped schema, a dot, escaped table; and
    in the record form the schema argument makes no difference. *)
Theorem TableName_construction (table schema : value) :
  let tbl := effective_table table in
  let sch := effective_schema table schema in
  (~ nonempty_string tbl ->
   TableName_new table schema =
   Throw (TypeError "Table name must be non-empty text string."))
  /\ (nonempty_string tbl -> isNull sch = false -> (forall s, sch <> VStr s) ->
      TableName_new table schema = Throw (TypeError "Invalid schema name."))
  /\ (forall t, tbl = VStr t -> t <> "" -> isNull sch = true \/ sch = VStr "" ->
      TableName_new table schema = Ok (mkTableName t None (as_name t)))
  /\ (forall t s, tbl = VStr t -> t <> "" -> sch = VStr s -> s <> "" ->
      TableName_new table schema =
      Ok (mkTableName t (Some s) (as_name s ++ "." ++ as_name t)))
  /\ (forall other, record_form table = true ->
      TableName_new table other = TableName_new table schema)
  /\ (isNull sch = false -> (forall s, sch <> VStr s) ->
      exists msg, TableName_new table schema = Throw (TypeError msg)).
Proof.
  intros tbl sch. rewrite TableName_new_effective. fold tbl sch. cbv zeta.
  split; [|split; [|split; [|split; [|split]]]].
  - intros Hno. destruct (isText tbl) eqn:E; [|reflexivity].
    apply isText_nonempty in E. contradiction.
  - intros Htbl Hnull Hstr. apply isText_nonempty in Htbl. rewrite Htbl, Hnull. simpl.
    destruct sch; try reflexivity. now destruct (Hstr s).
  - intros t Ht Hne Hsch. rewrite Ht. simpl.
    apply String.eqb_neq in Hne. rewrite Hne. simpl.
    destruct Hsch as [Hnull| ->]; [now rewrite Hnull | reflexivity].
  - intros t s0 Ht Hne Hs Hsne. rewrite Ht, Hs. simpl.
    apply String.eqb_neq in Hne, Hsne. rewrite Hne. simpl.
    destruct s0 as [|c s0]; [discriminate|]. reflexivity.
  - intros other Hrec. rewrite TableName_new_effective.
    unfold tbl, sch, effective_schema. now rewrite Hrec.
  - intros Hnull Hstr. destruct (isText tbl); simpl; [|eauto].
    rewrite Hnull. simpl. destruct sch; simpl; eauto. now destruct (Hstr s).
Qed.

(** ** columnSet.js: the caches *)

Lemma join_cons_empty (s : string) (l : list string) :
  join (s :: l) = "" -> s = "".
Proof.
  destruct l; simpl; [auto|]. destruct s; [reflexivity | discriminate].
Qed.

Lemma names_text_spec (cols : list Column) :
  Forall (fun c => col_escapedName c <> "") cols ->
  names_text cols =
  match cols with
  | [] => ""
  | _ :: _ => "(" ++ join (map col_escapedName cols) ++ ")"
  end.
Proof.
  intros Hne. unfold names_text. destruct cols as [|c cols]; [reflexivity|].
  inversion_clear Hne as [|? ? Hc _].
  destruct (String.eqb_spec (join (map col_escapedName (c :: cols))) "") as [E|E].
  - apply join_cons_empty in E. contradiction.
  - reflexivity.
Qed.

Lemma names_consistent (cs : ColumnSet) :
  consistent cs ->
  fst (names cs) = names_text (cs_columns cs)
  /\ cs_names (snd (names cs)) = Some (names_text (cs_columns cs)).
Proof.
  intros ([Hn|Hn] & _); unfold names; rewrite Hn; simpl.
  - split; reflexivity.
  - destruct (names_text (cs_columns cs) =? "") eqn:E; simpl.
    + split; [|reflexivity]. apply String.eqb_eq in E. rewrite E.
      unfold names_text in E |- *.
      destruct (join (map col_escapedName (cs_columns cs)) =? "") eqn:E'; simpl in *;
        [now apply String.eqb_eq in E' | discriminate].
    + split; [reflexivity | exact Hn].
Qed.

Lemma variables_consistent (cs : ColumnSet) :
  consistent cs ->
  fst (variables cs) = join (map col_variable (cs_columns cs))
  /\ cs_variables (snd (variables cs)) = Some (join (map col_variable (cs_columns cs))).
Proof.
  intros (_ & [Hv|Hv] & _); unfold variables; rewrite Hv; simpl.
  - split; reflexivity.
  - destruct (join (map col_variable (cs_columns cs)) =? "") eqn:E; simpl.
    + split; [|reflexivity]. now apply String.eqb_eq in E.
    + split; [reflexivity | exact Hv].
Qed.

Lemma names_frame (cs : ColumnSet) :
  cs_columns (snd (names cs)) = cs_columns cs
  /\ cs_table (snd (names cs)) = cs_table cs
  /\ cs_variables (snd (names cs)) = cs_variables cs
  /\ cs_updates (snd (names cs)) = cs_updates cs.
Proof. unfold names. destruct (negb (cached (cs_names cs))); simpl; auto. Qed.

Lemma variables_frame (cs : ColumnSet) :
  cs_columns (snd (variables cs)) = cs_columns cs
  /\ cs_table (snd (variables cs)) = cs_table cs
  /\ cs_names (snd (variables cs)) = cs_names cs
  /\ cs_updates (snd (variables cs)) = cs_updates cs.
Proof. unfold variables. destruct (negb (cached (cs_variables cs))); simpl; auto. Qed.

Lemma fresh_consistent (cs : ColumnSet) : fresh cs -> consistent cs.
Proof. intros (Hn & Hv & Hu). unfold consistent. auto. Qed.

Lemma names_keeps_consistent (cs : ColumnSet) :
  consistent cs -> consistent (snd (names cs)).
Proof.
  intros H. destruct (names_consistent cs H) as [_ Hn].
  destruct (names_frame cs) as (Hc & _ & Hv & Hu).
  destruct H as (_ & H2 & H3). unfold consistent. rewrite Hc, Hv, Hu, Hn. auto.
Qed.

Lemma variables_keeps_consistent (cs : ColumnSet) :
  consistent cs -> consistent (snd (variables cs)).
Proof.
  intros H. destruct (variables_consistent cs H) as [_ Hv].
  destruct (variables_frame cs) as (Hc & _ & Hn & Hu).
  destruct H as (H1 & _ & H3). unfold consistent. rewrite Hc, Hv, Hu, Hn. auto.
Qed.

(** ** columnSet.js: getUpdates *)

Lemma updates_filter_spec (obj : value) (cols : list Column) :
  updates_filter obj cols =
  (filter (fun c => negb (is_cnd c) && negb (skipped obj c)) cols,
   existsb dynamic_column cols,
   flat_map (fun c => if is_cnd c then [] else skip_calls obj c) cols).
Proof.
  induction cols as [|c cols IH]; [reflexivity|].
  simpl. rewrite IH. unfold dynamic_column, skipped, skip_calls.
  destruct (is_cnd c); simpl; [reflexivity|].
  destruct (col_skip c) as [f|]; simpl; [|reflexivity].
  destruct (truthy (call f obj (VStr (prop_or_name c)))); reflexivity.
Qed.

(** Without a dynamic column no [skip] is consulted. *)
Lemma static_columns (obj : value) (cols : list Column) :
  existsb dynamic_column cols = false ->
  filter (fun c => negb (is_cnd c) && negb (skipped obj c)) cols
  = filter (fun c => negb (is_cnd c)) cols
  /\ flat_map (fun c => if is_cnd c then [] else skip_calls obj c) cols = [].
Proof.
  induction cols as [|c cols IH]; simpl; [auto|].
  intros H. apply orb_false_iff in H as [Hc Hcols].
  destruct (IH Hcols) as [IH1 IH2]. rewrite IH1, IH2.
  unfold dynamic_column, skipped, skip_calls in *.
  destruct (is_cnd c); simpl in *; [auto|].
  destruct (col_skip c); [discriminate | auto].
Qed.

Lemma skip_calls_origin (obj : value) (cols : list Column) (ev : call_event) :
  In ev (flat_map (fun c => if is_cnd c then [] else skip_calls obj c) cols) ->
  exists c, In c cols /\ is_cnd c = false /\ skip_calls obj c = [ev].
Proof.
  intros H. apply in_flat_map in H as (c & Hc & Hev). exists c.
  destruct (is_cnd c); [destruct Hev|]. unfold skip_calls in *.
  destruct (col_skip c); [|destruct Hev].
  destruct Hev as [<-|[]]. auto.
Qed.

Lemma getUpdates_consistent (cs : ColumnSet) (obj : value) :
  consistent cs ->
  let r := getUpdates cs obj in
  returned r =
  join (map assignment
            (filter (fun c => negb (is_cnd c) && negb (skipped obj c)) (cs_columns cs)))
  /\ (calls r = []
      \/ calls r = flat_map (fun c => if is_cnd c then [] else skip_calls obj c)
                            (cs_columns cs))
  /\ cs_updates (after r)
     = (if existsb dynamic_column (cs_columns cs) then None else Some (returned r))
  /\ cs_columns (after r) = cs_columns cs
  /\ cs_table (after r) = cs_table cs
  /\ cs_names (after r) = cs_names cs
  /\ cs_variables (after r) = cs_variables cs.
Proof.
  intros (_ & _ & Hu). unfold getUpdates.
  assert (Hfresh :
    let '(kept, dynamic, calls) := updates_filter obj (cs_columns cs) in
    kept = filter (fun c => negb (is_cnd c) && negb (skipped obj c)) (cs_columns cs)
    /\ dynamic = existsb dynamic_column (cs_columns cs)
    /\ calls = flat_map (fun c => if is_cnd c then [] else skip_calls obj c) (cs_columns cs))
    by (rewrite updates_filter_spec; auto).
  destruct (updates_filter obj (cs_columns cs)) as [[kept dynamic] evs].
  destruct Hfresh as (-> & -> & ->).
  destruct Hu as [Hu|[Hstatic Hu]]; rewrite Hu; simpl.
  - destruct (existsb dynamic_column (cs_columns cs)); simpl; repeat split; auto.
  - rewrite Hstatic. simpl.
    destruct (static_columns obj _ Hstatic) as [Hkept Hcalls].
    rewrite Hkept, Hcalls.
    destruct (join (map assignment (filter (fun c => negb (is_cnd c)) (cs_columns cs))) =? "");
      simpl; repeat split; auto.
Qed.

Lemma getUpdates_keeps_consistent (cs : ColumnSet) (obj : value) :
  consistent cs -> consistent (after (getUpdates cs obj)).
Proof.
  intros H. destruct (getUpdates_consistent cs obj H) as (Hr & _ & Hu & Hc & _ & Hn & Hv).
  destruct H as (H1 & H2 & _). unfold consistent. rewrite Hc, Hn, Hv, Hu.
  repeat split; [exact H1 | exact H2 |].
  destruct (existsb dynamic_column (cs_columns cs)) eqn:E; [now left | right].
  split; [reflexivity|]. rewrite Hr.
  now destruct (static_columns obj _ E) as [-> _].
Qed.

Lemma later_consistent (cs cs' : ColumnSet) :
  consistent cs -> later cs cs' ->
  consistent cs' /\ cs_columns cs' = cs_columns cs /\ cs_table cs' = cs_table cs.
Proof.
  intros H Hl. induction Hl as [cs|cs cs' _ IH|cs cs' _ IH|cs cs' obj _ IH].
  - auto.
  - destruct (IH H) as (Hc & Hcols & Ht). destruct (names_frame cs') as (E1 & E2 & _).
    rewrite E1, E2. auto using names_keeps_consistent.
  - destruct (IH H) as (Hc & Hcols & Ht). destruct (variables_frame cs') as (E1 & E2 & _).
    rewrite E1, E2. auto using variables_keeps_consistent.
  - destruct (IH H) as (Hc & Hcols & Ht).
    destruct (getUpdates_consistent cs' obj Hc) as (_ & _ & _ & E1 & E2 & _).
    rewrite E1, E2. auto using getUpdates_keeps_consistent.
Qed.

Lemma later_trans (a b c : ColumnSet) : later a b -> later b c -> later a c.
Proof.
  intros Hab Hbc. induction Hbc; [exact Hab | | |]; constructor; auto.
Qed.

(** C9: the cached views.  A read of [names] or of [variables] that finds
    a text in its cache returns that text, whatever it is, and leaves the
    aggregate as it is; a read that finds nothing cached computes the text
    and leaves it in the cache.  So, at any time of the life of an aggregate
    whose escaped names are not empty, [names] reads as the escaped names
    joined by commas inside parentheses, and as the empty string when there
    is no column; [variables] reads as the placeholders of all the columns,
    conditional ones included, joined by commas in column order; and each
    read leaves its text in the cache. *)
Theorem names_variables_cached (cs cs' : ColumnSet) :
  (forall text, cs_names cs = Some text -> text <> "" -> names cs = (text, cs))
  /\ (forall text, cs_variables cs = Some text -> text <> "" ->
      variables cs = (text, cs))
  /\ (cached (cs_names cs) = false ->
      names cs
      = (names_text (cs_columns cs),
         mkColumnSet (cs_table cs) (cs_columns cs) (Some (names_text (cs_columns cs)))
                     (cs_variables cs) (cs_updates cs)))
  /\ (cached (cs_variables cs) = false ->
      variables cs
      = (join (map col_variable (cs_columns cs)),
         mkColumnSet (cs_table cs) (cs_columns cs) (cs_names cs)
                     (Some (join (map col_variable (cs_columns cs)))) (cs_updates cs)))
  /\ (consistent cs -> later cs cs' ->
      Forall (fun c => col_escapedName c <> "") (cs_columns cs) ->
      fst (names cs') =
        match cs_columns cs with
        | [] => ""
        | _ :: _ => "(" ++ join (map col_escapedName (cs_columns cs)) ++ ")"
        end
      /\ fst (variables cs') = join (map col_variable (cs_columns cs))
      /\ cs_names (snd (names cs')) = Some (fst (names cs'))
      /\ cs_variables (snd (variables cs')) = Some (fst (variables cs'))
      /\ (forall text, cs_names cs' = Some text -> text <> "" ->
          names cs' = (text, cs'))
      /\ (forall text, cs_variables cs' = Some text -> text <> "" ->
          variables cs' = (text, cs'))).
Proof.
  assert (Hnames : forall a text, cs_names a = Some text -> text <> "" ->
                                  names a = (text, a)).
  { intros a text Ht Hte. unfold names. rewrite Ht. simpl.
    apply String.eqb_neq in Hte. now rewrite Hte. }
  assert (Hvars : forall a text, cs_variables a = Some text -> text <> "" ->
                                 variables a = (text, a)).
  { intros a text Ht Hte. unfold variables. rewrite Ht. simpl.
    apply String.eqb_neq in Hte. now rewrite Hte. }
  split; [apply Hnames|]. split; [apply Hvars|].
  split; [|split].
  - intros Hn. unfold names, names_text. now rewrite Hn.
  - intros Hv. unfold variables. now rewrite Hv.
  - intros H Hl Hne. destruct (later_consistent _ _ H Hl) as (Hc & Hcols & _).
    destruct (names_consistent cs' Hc) as [Hn1 Hn2].
    destruct (variables_consistent cs' Hc) as [Hv1 Hv2].
    rewrite Hn1, Hn2, Hv1, Hv2, Hcols, (names_text_spec _ Hne).
    repeat split; [apply Hnames | apply Hvars].
Qed.

(** C5: the update assignments.  A call of [getUpdates] that finds a text
    in its cache returns that text, whatever it is and whatever object it is
    given, invokes nothing and leaves the aggregate as it is.  At any time
    of the life of an aggregate, [getUpdates(obj)] returns, in column order
    and joined by commas, the assignment of every column that is not
    conditional and whose [skip], if it has one, does not answer truthy for
    [obj] and the property name; every callback it invokes is the [skip] of a
    column that is not conditional, with [obj] as receiver and the property
    name as argument; the result is left in the cache iff no such column
    defines [skip]; and in that case every later call returns the same text,
    whatever object it is given, and invokes nothing. *)
Theorem getUpdates_spec (cs cs' : ColumnSet) (obj : value) :
  (forall text, cs_updates cs = Some text -> text <> "" ->
     getUpdates cs obj = mkOutcome text cs [])
  /\ (consistent cs -> later cs cs' ->
      let r := getUpdates cs' obj in
      returned r =
      join (map assignment
                (filter (fun c => negb (is_cnd c) && negb (skipped obj c)) (cs_columns cs)))
      /\ (forall ev, In ev (calls r) ->
          exists c, In c (cs_columns cs) /\ is_cnd c = false /\ skip_calls obj c = [ev])
      /\ cs_updates (after r)
         = (if existsb dynamic_column (cs_columns cs) then None else Some (returned r))
      /\ (existsb dynamic_column (cs_columns cs) = false ->
          forall cs'' obj', later (after r) cs'' ->
            returned (getUpdates cs'' obj') = returned r
            /\ calls (getUpdates cs'' obj') = [])).
Proof.
  split.
  { intros text Ht Hte. unfold getUpdates. rewrite Ht. simpl.
    apply String.eqb_neq in Hte. now rewrite Hte. }
  intros H Hl r. destruct (later_consistent _ _ H Hl) as (Hc & Hcols & _).
  destruct (getUpdates_consistent cs' obj Hc) as (Hr & Hcalls & Hu & _).
  fold r in Hr, Hcalls, Hu. rewrite Hcols in *.
  split; [exact Hr|]. split; [|split; [exact Hu|]].
  - intros ev Hev. destruct Hcalls as [E|E]; rewrite E in Hev; [destruct Hev|].
    now apply skip_calls_origin.
  - intros Hstatic cs'' obj' Hl2.
    assert (Hl'' : later cs cs'').
    { apply later_trans with (after r); [now constructor | assumption]. }
    destruct (later_consistent _ _ H Hl'') as (Hc'' & Hcols'' & _).
    destruct (getUpdates_consistent cs'' obj' Hc'') as (Hr'' & Hcalls'' & _).
    rewrite Hcols'' in *. split.
    + rewrite Hr'', Hr.
      destruct (static_columns obj _ Hstatic) as [-> _].
      now destruct (static_columns obj' _ Hstatic) as [-> _].
    + destruct Hcalls'' as [E|E]; [exact E|].
      rewrite E. now destruct (static_columns obj' _ Hstatic) as [_ ->].
Qed.

(** ** columnSet.js: canUpdate *)

Lemma canUpdate_count_spec (data : value) (cols : list Column) (cnd skip : nat) :
  canUpdate_count data cols cnd skip =
  (cnd + countIf is_cnd cols, skip + countIf (skipped data) cols,
   flat_map (skip_calls data) cols).
Proof.
  revert cnd skip; induction cols as [|c cols IH]; intros cnd skip.
  - unfold countIf; simpl. now rewrite !Nat.add_0_r.
  - simpl canUpdate_count. unfold countIf, skipped, skip_calls in *. simpl.
    destruct (col_skip c) as [f|]; rewrite IH; simpl.
    + destruct (is_cnd c), (truthy (call f data (VStr (prop_or_name c)))); simpl;
        f_equal; try reflexivity; f_equal; lia.
    + destruct (is_cnd c); simpl; f_equal; try reflexivity; f_equal; lia.
Qed.

Lemma is_object_cases (v : value) :
  is_object v = true -> (exists items, v = VArr items) \/ (exists props, v = VObj props).
Proof.
  unfold is_object. destruct v; simpl; rewrite ?andb_false_r; try discriminate; eauto.
Qed.

(** C3: the feasibility check.  Data that is not a non-null object is
    refused with a TypeError; for an array the answer is true iff the columns
    outnumber the conditional ones and the array is not empty, and no
    callback is invoked; for a single object the answer is true iff the
    columns outnumber the conditional ones plus those whose [skip], called
    with the object as receiver and the property name as argument, answers
    truthy, the [skip] of every column that has one being invoked once. *)
Theorem canUpdate_spec (cs : ColumnSet) (data : value) :
  let cols := cs_columns cs in
  (is_object data = false ->
   canUpdate cs data = (Throw (TypeError "Invalid parameter 'data' specified."), []))
  /\ (forall items, data = VArr items ->
      exists b, canUpdate cs data = (Ok b, [])
        /\ (b = true <-> countIf is_cnd cols < List.length cols /\ items <> []))
  /\ (forall props, data = VObj props ->
      exists b, canUpdate cs data = (Ok b, flat_map (skip_calls data) cols)
        /\ (b = true <->
            countIf is_cnd cols + countIf (skipped data) cols < List.length cols)).
Proof.
  intros cols. unfold canUpdate. repeat split.
  - unfold is_object. intros H.
    destruct (truthy data); simpl in *; [now rewrite H | reflexivity].
  - intros items ->. simpl. eexists; split; [reflexivity|].
    rewrite andb_true_iff, Nat.ltb_lt. fold cols.
    destruct items; simpl; split; intros [H1 H2]; split; auto; simpl in *; easy.
  - intros props ->. simpl. rewrite canUpdate_count_spec. fold cols. simpl.
    eexists; split; [reflexivity|]. now rewrite Nat.ltb_lt.
Qed.

(** ** Objects: properties read and written *)
















(** ** columnSet.js: prepare *)

Lemma prepare_column_calls (obj : value) (target : list (property value)) (c : Column) :
  snd (prepare_column obj target c) = init_calls obj c.
Proof.
  unfold prepare_column, init_calls.
  destruct (has_property (prop_or_name c) obj), (col_init c); reflexivity.
Qed.











(** *** The heap *)







(** ** columnSet.js: the constructor on a plain object *)

Lemma match_modifier_token (s : string) (r : regmatch) :
  match_modifier s = Some r -> token_at s (m_index r).
Proof.
  intros H. destruct (match_modifier_some _ _ H) as (Hin & Hlen & [post Hs] & _).
  now exists (m_text r), (substr_upto s (m_index r)), post.
Qed.



Lemma mapM_Forall2 {A B : Type} (f : A -> result B) (l : list A) (bs : list B) :
  mapM f l = Ok bs -> Forall2 (fun a b => f a = Ok b) l bs.
Proof.
  revert bs; induction l as [|a l IH]; intros bs; simpl.
  - intros [= <-]. constructor.
  - destruct (f a) as [b|] eqn:Ea; [|discriminate]. simpl.
    destruct (mapM f l) as [bs'|]; [|discriminate]. simpl.
    intros [= <-]. constructor; auto.
Qed.

Lemma mapM_fault {A B : Type} (f : A -> result B) (good rest : list A) (bad : A)
      (e : exn) :
  Forall (fun a => exists b, f a = Ok b) good -> f bad = Throw e ->
  mapM f (good ++ bad :: rest) = Throw e.
Proof.
  intros Hgood Hbad. induction Hgood as [|a good [b Hb] _ IH]; simpl.
  - now rewrite Hbad.
  - now rewrite Hb, IH.
Qed.

(** *** The order of enumeration *)


















(** *** The loop of the constructor *)









(** ** methods/update.js *)

(** Options that are absent or an object pass the check of [update]. *)
Lemma options_accepted (options : value) :
  isNull options = true \/ typeof options = "object" ->
  negb (isNull options) && negb (typeof options =? "object") = false.
Proof. intros [-> | ->]; [reflexivity | apply andb_false_r]. Qed.

(** C7 as the code has it: the faults of [update].  An array without
    columns (null or undefined, hence not an aggregate) is refused with the
    fault that asks for columns, whatever it holds; an empty array whose
    columns were settled is refused as empty; and data that passed these
    checks, with valid options, is refused as having no table when the table
    settled on (the argument, or the aggregate's own when the argument is
    null) is missing.  A fault is the whole outcome of the call: [update]
    returns a statement or throws, never both. *)
Theorem update_faults (data : value) (columns : columns_arg) (table : table_arg)
        (options capSQL : value) :
  (forall items, data = VArr items -> columns_isNull columns = true ->
     update data columns table options capSQL =
     Throw (TypeError "Parameter 'columns' is required when updating multiple records."))
  /\ (forall cs tbl, data = VArr [] ->
      update_columns data columns table = Ok (cs, tbl) ->
      update data columns table options capSQL =
      Throw (TypeError "Cannot generate an UPDATE from an empty array."))
  /\ (forall cs tbl, is_object data = true -> data <> VArr [] ->
      update_columns data columns table = Ok (cs, tbl) ->
      isNull options = true \/ typeof options = "object" ->
      table_truthy tbl = false ->
      update data columns table options capSQL = Throw (Error "Table name is unknown.")).
Proof.
  repeat split.
  - intros items -> Hnull. unfold update, update_columns. simpl.
    destruct columns; try discriminate. simpl in *. now rewrite Hnull.
  - intros cs tbl -> Hcols. unfold update. simpl. now rewrite Hcols.
  - intros cs tbl Hobj Hne Hcols Hopt Htbl. unfold update.
    unfold is_object in Hobj. apply andb_true_iff in Hobj as [Ht Ho].
    rewrite Ht, Ho, Hcols. simpl.
    assert (Hlen : isArray data && negb (truthy (get data "length")) = false).
    { destruct data as [| | | | | |items|]; try reflexivity.
      destruct items; [congruence | reflexivity]. }
    rewrite Hlen.
    now rewrite (options_accepted _ Hopt), Htbl.
Qed.

Lemma prepare_columns (cs cs' : ColumnSet) (d : value) :
  cs_columns cs' = cs_columns cs -> prepare cs' d = prepare cs d.
Proof. intros H. unfold prepare. now rewrite H. Qed.

Lemma update_values_spec (items : list value) :
  forall cs index,
    consistent cs -> Forall (fun d => is_object d = true) items ->
    exists cs',
      update_values cs index items = Ok (map (tuple cs) items, cs') /\ later cs cs'.
Proof.
  induction items as [|d items IH]; intros cs index Hc Hitems; simpl.
  - exists cs. split; [reflexivity | constructor].
  - inversion_clear Hitems as [|? ? Hd Hrest].
    unfold is_object in Hd. apply andb_true_iff in Hd as [Ht Ho]. rewrite Ht, Ho. simpl.
    destruct (variables_consistent cs Hc) as [Hv _].
    destruct (variables_frame cs) as (Hcols & _).
    pose proof (variables_keeps_consistent cs Hc) as Hc1.
    destruct (variables cs) as [vars cs1] eqn:Evars. simpl in Hv, Hcols, Hc1.
    destruct (IH cs1 (S index) Hc1 Hrest) as (cs' & Hrec & Hl).
    rewrite Hrec. simpl. exists cs'. split.
    + unfold tuple. rewrite Hv, Hcols, (prepare_columns cs cs1 d Hcols).
      do 2 f_equal. f_equal. apply map_ext. intros x.
      now rewrite (prepare_columns cs cs1 x Hcols).
    + apply later_trans with cs1; [|exact Hl].
      replace cs1 with (snd (variables cs)) by now rewrite Evars.
      do 2 constructor.
Qed.

Lemma format_update_query (capSQL : value) (a b c d e : string) :
  as_format
    (if truthy capSQL then toUpperCase "update $1^ as $2^ set $3^ from (values$4^) as $5^"
     else "update $1^ as $2^ set $3^ from (values$4^) as $5^")
    (VArr [VStr a; VStr b; VStr c; VStr d; VStr e])
  = keyword capSQL "update " ++ a ++ keyword capSQL " as " ++ b
    ++ keyword capSQL " set " ++ c ++ keyword capSQL " from (values" ++ d
    ++ keyword capSQL ") as " ++ e.
Proof.
  unfold keyword. rewrite <- (append_nil_r e) at 2.
  destruct (truthy capSQL); vm_compute; reflexivity.
Qed.

Lemma ColumnSet_new_fresh (columns : columns_arg) (options : options_arg)
      (cs : ColumnSet) :
  ColumnSet_new columns options = Ok cs -> fresh cs.
Proof.
  unfold ColumnSet_new.
  destruct (match columns with
            | ColumnsValue v => negb (truthy v) || negb (typeof v =? "object")
            | _ => false
            end); [discriminate|].
  destruct (ColumnSet_options options) as [ti|]; [|discriminate]. cbn [bind].
  match goal with |- bind ?m _ = _ -> _ => destruct m; [|discriminate] end.
  intros [= <-]. repeat split.
Qed.

Lemma update_columns_consistent (data : value) (columns : columns_arg)
      (table tbl : table_arg) (cs : ColumnSet) :
  (forall cs0, columns = ColumnsSet cs0 -> consistent cs0) ->
  update_columns data columns table = Ok (cs, tbl) -> consistent cs.
Proof.
  intros Hset. unfold update_columns.
  assert (Hnew : forall c,
            (if isArray data && columns_isNull c
             then Throw (TypeError
                    "Parameter 'columns' is required when updating multiple records.")
             else cs1 <- ColumnSet_new (columns_or c data) (OptionsValue VUndefined) ;;
                  Ok (cs1, table)) = Ok (cs, tbl) -> consistent cs).
  { intros c. destruct (isArray data && columns_isNull c); [discriminate|].
    destruct (ColumnSet_new (columns_or c data) (OptionsValue VUndefined)) eqn:E;
      [|discriminate].
    intros [= <- _]. apply fresh_consistent. eapply ColumnSet_new_fresh, E. }
  destruct columns as [v|l|c|cs0]; try apply Hnew.
  specialize (Hset cs0 eq_refl).
  destruct (table_isNull table); intros [= <- _]; exact Hset.
Qed.

Lemma update_array_eq (items : list value) (columns : columns_arg) (table : table_arg)
      (options capSQL : value) :
  update (VArr items) columns table options capSQL =
  (columns_table <- update_columns (VArr items) columns table ;;
   if negb (truthy (VNum (Z.of_nat (List.length items)))) then
     Throw (TypeError "Cannot generate an UPDATE from an empty array.")
   else if negb (isNull options) && negb (typeof options =? "object") then
     Throw (TypeError "Invalid parameter 'options' specified.")
   else if negb (table_truthy (snd columns_table)) then
     Throw (Error "Table name is unknown.")
   else
     tn <- table_instance (snd columns_table) ;;
     if Nat.eqb (List.length (filter (fun c => negb (is_cnd c))
                                     (cs_columns (fst columns_table)))) 0
     then Throw (Error errNoColumns)
     else
       values_columns <- update_values (fst columns_table) 0 items ;;
       Ok (as_format
             (if truthy capSQL
              then toUpperCase "update $1^ as $2^ set $3^ from (values$4^) as $5^"
              else "update $1^ as $2^ set $3^ from (values$4^) as $5^")
             (VArr [VStr (tn_name tn); VStr (alias options "tableAlias" "t");
                    VStr (join (map (assignment_from (alias options "valueAlias" "v"))
                                    (filter (fun c => negb (is_cnd c))
                                            (cs_columns (fst columns_table)))));
                    VStr (join (fst values_columns));
                    VStr (alias options "valueAlias" "v"
                          ++ fst (names (snd values_columns)))]))).
Proof. reflexivity. Qed.

(** C1: the multi-row update.  For a non-empty array of non-null objects,
    columns settled to an aggregate (consistent, if it was given as one)
    with a column that is not conditional, a table that resolves, and
    options that are absent or an object, the
    statement is: update, the escaped table, as, the table alias, set, the
    assignments [name = valueAlias.name cast] of the columns that are not
    conditional in column order, from (values, one tuple per element made
    from all the placeholders applied to [prepare(element)], ) as, the value
    alias followed by the names; the aliases are [t] and [v] unless the
    options set them; the fixed words are in upper case exactly when
    [capSQL] is set. *)
Theorem update_many (items : list value) (columns : columns_arg) (table : table_arg)
        (options capSQL : value) (cs : ColumnSet) (tbl : table_arg) (tn : TableName) :
  items <> [] ->
  Forall (fun d => is_object d = true) items ->
  (forall cs0, columns = ColumnsSet cs0 -> consistent cs0) ->
  update_columns (VArr items) columns table = Ok (cs, tbl) ->
  existsb (fun c => negb (is_cnd c)) (cs_columns cs) = true ->
  table_truthy tbl = true ->
  table_instance tbl = Ok tn ->
  isNull options = true \/ typeof options = "object" ->
  let tableAlias := alias options "tableAlias" "t" in
  let valueAlias := alias options "valueAlias" "v" in
  update (VArr items) columns table options capSQL =
  Ok (keyword capSQL "update " ++ tn_name tn
      ++ keyword capSQL " as " ++ tableAlias
      ++ keyword capSQL " set "
      ++ join (map (assignment_from valueAlias)
                   (filter (fun c => negb (is_cnd c)) (cs_columns cs)))
      ++ keyword capSQL " from (values" ++ join (map (tuple cs) items)
      ++ keyword capSQL ") as " ++ valueAlias ++ names_text (cs_columns cs)).
Proof.
  intros Hne Hitems Hset Hcols Hsome Htbl Htn Hopt tableAlias valueAlias.
  pose proof (update_columns_consistent _ _ _ _ _ Hset Hcols) as Hc.
  rewrite update_array_eq, Hcols. cbn [bind fst snd].
  assert (Hlen : negb (truthy (VNum (Z.of_nat (List.length items)))) = false).
  { destruct items; [congruence | reflexivity]. }
  rewrite Hlen, (options_accepted _ Hopt), Htbl. cbn [negb]. rewrite Htn. cbn [bind].
  assert (Hactual :
    Nat.eqb (List.length (filter (fun c => negb (is_cnd c)) (cs_columns cs))) 0 = false).
  { apply existsb_exists in Hsome as (c & Hin & Hcnd).
    assert (H : In c (filter (fun c => negb (is_cnd c)) (cs_columns cs)))
      by (apply filter_In; auto).
    now destruct (filter (fun c => negb (is_cnd c)) (cs_columns cs)). }
  rewrite Hactual.
  destruct (update_values_spec items cs 0 Hc Hitems) as (cs' & Hvalues & Hl).
  rewrite Hvalues. cbn [bind fst snd].
  destruct (later_consistent _ _ Hc Hl) as (Hc' & Hcols' & _).
  destruct (names_consistent cs' Hc') as [Hnames _]. rewrite Hnames, Hcols'.
  f_equal. apply format_update_query.
Qed.

(** * Further properties *)

(** ** column.js: the loops that strip a prefix *)

Lemma skip_leading_stripped (ch : ascii) (s : string) :
  skip_leading ch (substr_from s (skip_leading ch s)) = 0.
Proof.
  destruct (skip_leading_split ch s) as [_ H].
  destruct (substr_from s (skip_leading ch s)) as [|c t]; [reflexivity|].
  simpl. destruct (Ascii.eqb_spec c ch) as [->|]; [now destruct (H t) | reflexivity].
Qed.

Lemma getCastName_substr (s : string) :
  getCastName s = substr_from s (skip_leading ":"%char s).
Proof. unfold getCastName. destruct (skip_leading ":"%char s); reflexivity. Qed.

(** X4: [getCastName] removes the leading colons of a cast, all of them and
    nothing else, and [stripCnd] the leading question marks of a name; what
    is left does not start with the stripped character, so stripping again
    changes nothing. *)
Theorem strip_loops (s : string) :
  (exists n, s = replicate n ":" ++ getCastName s)
  /\ (forall t, getCastName s <> String ":" t)
  /\ getCastName (getCastName s) = getCastName s
  /\ (exists n, s = replicate n "?" ++ stripCnd s)
  /\ (forall t, stripCnd s <> String "?" t)
  /\ stripCnd (stripCnd s) = stripCnd s.
Proof.
  rewrite !getCastName_substr, !stripCnd_substr, !skip_leading_stripped.
  destruct (skip_leading_split ":"%char s) as [Hc1 Hc2].
  destruct (skip_leading_split "?"%char s) as [Hq1 Hq2].
  repeat split; eauto.
Qed.

(** ** column.js: the string form read back *)

Lemma append_inv_length (a b x y : string) :
  a ++ x = b ++ y -> String.length a = String.length b -> a = b /\ x = y.
Proof.
  revert b; induction a as [|c a IH]; intros [|d b] H Hlen; try discriminate.
  - auto.
  - simpl in H, Hlen. injection H as -> H. injection Hlen as Hlen.
    destruct (IH b H Hlen) as [-> ->]. auto.
Qed.

Lemma token_at_prefix (u v : string) (i : nat) :
  token_at u i -> token_at (u ++ v) i.
Proof.
  intros (tok & pre & post & Hin & -> & Hlen).
  exists tok, pre, (post ++ v). now rewrite !append_assoc.
Qed.

Lemma match_modifier_first (nm tok post : string) :
  In tok modifiers ->
  (forall i, i < String.length nm -> ~ token_at (nm ++ tok ++ post) i) ->
  match_modifier (nm ++ tok ++ post) = Some (mkMatch (String.length nm) tok).
Proof.
  intros Hin Hno.
  assert (Hhere : token_at (nm ++ tok ++ post) (String.length nm))
    by (exists tok, nm, post; auto).
  destruct (match_modifier (nm ++ tok ++ post)) as [[idx text]|] eqn:Hm.
  - destruct (match_modifier_some _ _ Hm) as (Hin' & Hlen & [post' Hs] & Hno').
    pose proof (match_modifier_token _ _ Hm) as Htok. cbn [m_index m_text] in *.
    assert (Hidx : idx = String.length nm).
    { destruct (Nat.lt_trichotomy idx (String.length nm)) as [Hlt|[Heq|Hgt]].
      - destruct (Hno idx Hlt Htok).
      - exact Heq.
      - destruct (Hno' _ Hgt Hhere). }
    subst idx. rewrite substr_upto_append in Hs. symmetry in Hs.
    destruct (append_inv_length _ _ _ _ Hs eq_refl) as [_ Htail].
    now rewrite (modifier_unique _ _ _ _ Hin' Hin Htail).
  - destruct (match_modifier_none _ Hm _ Hhere).
Qed.

Lemma column_finish_string_eq (nm : string) (md : option string) (cnd : option bool) :
  nm <> "" ->
  column_finish (mkRaw (Some (VStr nm)) None md None cnd None None None)
  = Ok (mkColumn nm None md None cnd None None None
                 ("${" ++ nm ++ or_empty md ++ "}") "" (as_name nm)).
Proof.
  intros H. unfold column_finish. simpl. apply String.eqb_neq in H. now rewrite H.
Qed.

Lemma stripCnd_plain (body : string) :
  (forall t, body <> String "?" t) ->
  column_of_string body
  = match match_modifier body with
    | Some m => mkRaw (Some (VStr (substr_upto body (m_index m)))) None (Some (m_text m))
                      None None None None None
    | None => mkRaw (Some (VStr body)) None None None None None None None
    end.
Proof.
  intros Hq. unfold column_of_string.
  assert (Hs : stripCnd body = body).
  { unfold stripCnd. destruct body as [|c body]; [reflexivity|]. simpl.
    destruct (Ascii.eqb_spec c "?"%char) as [->|]; [now destruct (Hq body) | reflexivity]. }
  now rewrite Hs, String.eqb_refl.
Qed.

Lemma stripCnd_marked (body : string) :
  (forall t, body <> String "?" t) ->
  column_of_string (String "?" body)
  = match match_modifier body with
    | Some m => mkRaw (Some (VStr (substr_upto body (m_index m)))) None (Some (m_text m))
                      None (Some true) None None None
    | None => mkRaw (Some (VStr body)) None None None (Some true) None None None
    end.
Proof.
  intros Hq. unfold column_of_string.
  assert (Hskip : skip_leading "?"%char (String "?" body) = 1).
  { apply (skip_leading_replicate "?"%char 1 body Hq). }
  rewrite stripCnd_changed, Hskip.
  assert (Hs : stripCnd (String "?" body) = body)
    by (rewrite stripCnd_substr, Hskip; reflexivity).
  now rewrite Hs.
Qed.

(** X1: the string form is read back.  A column made from a string is made
    again, field for field, from its canonical text: a question mark if it is
    conditional, its name, its modifier. *)
Theorem Column_string_round_trip (s : string) (c : Column) :
  Column_new (VStr s) = Ok c ->
  Column_new (VStr (Column_text c)) = Ok c.
Proof.
  intros H. change (column_finish (column_of_string s) = Ok c) in H.
  change (column_finish (column_of_string (Column_text c)) = Ok c).
  destruct (column_of_string_split s) as (nm & md & Hsplit & Hraw).
  rewrite Hraw in H.
  destruct (string_dec nm "") as [->|Hnm].
  { unfold column_finish in H. simpl in H. discriminate. }
  rewrite (column_finish_string_eq _ _ _ Hnm) in H. injection H as <-.
  destruct (skip_leading_split "?"%char s) as [_ Hrest].
  rewrite <- stripCnd_substr in Hrest.
  set (body := nm ++ or_empty md).
  assert (Hq : forall t, body <> String "?" t).
  { intros t Hb. unfold body in Hb.
    destruct nm as [|c0 nm']; [congruence|]. simpl in Hb. injection Hb as -> _.
    destruct Hsplit as [(tok & post & _ & _ & Hs & _)|(_ & Hs & _)].
    - apply (Hrest (nm' ++ tok ++ post)). now rewrite Hs.
    - apply (Hrest nm'). now rewrite <- Hs. }
  assert (Hmatch : match_modifier body
                   = match md with
                     | Some tok => Some (mkMatch (String.length nm) tok)
                     | None => None
                     end).
  { unfold body. destruct Hsplit as [(tok & post & -> & Hin & Hs & Hno)|(-> & Hs & Hno)].
    - simpl. rewrite <- (append_nil_r tok) at 1.
      apply match_modifier_first; [exact Hin|].
      intros i Hi Htok. apply (Hno i Hi). rewrite Hs.
      rewrite append_nil_r in Htok.
      replace (nm ++ tok ++ post) with ((nm ++ tok) ++ post) by apply append_assoc.
      apply token_at_prefix. exact Htok.
    - simpl. rewrite append_nil_r.
      destruct (match_modifier nm) as [r|] eqn:Hm; [|reflexivity].
      rewrite <- Hs in Hno. destruct (Hno _ (match_modifier_token _ _ Hm)). }
  assert (Hupto : forall tok, md = Some tok -> substr_upto body (String.length nm) = nm).
  { intros tok ->. unfold body. apply substr_upto_append. }
  assert (Hnone : md = None -> body = nm).
  { intros ->. unfold body. simpl. apply append_nil_r. }
  unfold Column_text, is_cnd. simpl. fold body.
  destruct (Nat.eqb (skip_leading "?"%char s) 0); simpl.
  - rewrite (stripCnd_plain _ Hq), Hmatch. destruct md as [tok|]; simpl.
    + rewrite (Hupto tok eq_refl). now apply column_finish_string_eq.
    + rewrite (Hnone eq_refl). now apply column_finish_string_eq.
  - rewrite (stripCnd_marked _ Hq), Hmatch. destruct md as [tok|]; simpl.
    + rewrite (Hupto tok eq_refl). now apply column_finish_string_eq.
    + rewrite (Hnone eq_refl). now apply column_finish_string_eq.
Qed.

(** ** column.js: the configurator form *)

Lemma get_missing (v : value) (k : string) :
  is_object v = true -> has_property k v = false -> get v k = VUndefined.
Proof.
  intros Hobj. destruct (is_object_cases v Hobj) as [[items ->]|[props ->]];
    cbn [has_property get].
  - destruct (k =? "length"); [discriminate|]. cbn [orb].
    destruct (array_index k items); [discriminate|]. cbn [orb].
    destruct (lookup k Array_prototype); [discriminate | reflexivity].
  - destruct (lookup k props); [discriminate | reflexivity].
Qed.

Lemma Column_new_config (col : value) :
  is_object col = true -> Column_new col = column_finish (column_of_config col).
Proof.
  unfold is_object, Column_new. intros H.
  destruct col; simpl in H; rewrite ?andb_false_r in H; try discriminate; reflexivity.
Qed.

(** X2: a column made from a configurator.  A value that is neither a
    string nor a non-null object is refused; an object whose [name] is
    missing or not a non-empty text is refused for its name, whatever its
    [prop]; with a good name, a [prop] that is present but not a non-empty
    text is refused; otherwise the column is made, with [cnd] coerced to a
    boolean when present, [def] copied as it is whenever the key is present
    (be it with the value undefined), and [init] and [skip] kept only when
    they are functions; a [mod] counts only when it is a non-empty string, a
    [cast] only when it is a non-empty text, and is kept without its leading
    colons. *)
Theorem Column_of_config (col : value) :
  ((forall s, col <> VStr s) -> is_object col = false ->
   Column_new col = Throw (TypeError "A column must be a string or a configurator object."))
  /\ (is_object col = true -> isText (get col "name") = false ->
      Column_new col = Throw (TypeError "A column name must be a non-empty text string."))
  /\ (is_object col = true -> isText (get col "name") = true ->
      has_property "prop" col = true -> isText (get col "prop") = false ->
      Column_new col = Throw (TypeError "A property name must be a non-empty text string."))
  /\ (is_object col = true -> isText (get col "name") = true ->
      has_property "prop" col = false \/ isText (get col "prop") = true ->
      exists c,
        Column_new col = Ok c
        /\ col_name c = text_of (get col "name")
        /\ col_prop c = (if has_property "prop" col then Some (text_of (get col "prop"))
                         else None)
        /\ col_mod c = (if truthy (get col "mod") && (typeof (get col "mod") =? "string")
                        then Some (text_of (get col "mod")) else None)
        /\ col_cast c = (if isText (get col "cast")
                         then Some (getCastName (text_of (get col "cast"))) else None)
        /\ col_cnd c = (if has_property "cnd" col then Some (truthy (get col "cnd"))
                        else None)
        /\ col_def c = (if has_property "def" col then Some (get col "def") else None)
        /\ col_init c = match get col "init" with VFun f => Some f | _ => None end
        /\ col_skip c = match get col "skip" with VFun f => Some f | _ => None end).
Proof.
  split; [|split; [|split]].
  - intros Hstr Hobj. unfold Column_new, is_object in *.
    destruct col; try (now rewrite Hobj); try reflexivity. now destruct (Hstr s).
  - intros Hobj Hname. rewrite (Column_new_config _ Hobj).
    unfold column_finish, column_of_config. cbn [raw_name].
    destruct (has_property "name" col) eqn:E;
      [now rewrite Hname | reflexivity].
  - intros Hobj Hname Hhas Hprop. rewrite (Column_new_config _ Hobj).
    unfold column_finish, column_of_config. cbn [raw_name raw_prop].
    rewrite Hhas.
    destruct (has_property "name" col) eqn:E.
    + now rewrite Hname, Hprop.
    + rewrite (get_missing _ _ Hobj E) in Hname. discriminate.
  - intros Hobj Hname Hprop. rewrite (Column_new_config _ Hobj).
    unfold column_finish, column_of_config. cbn [raw_name raw_prop].
    destruct (has_property "name" col) eqn:E;
      [|rewrite (get_missing _ _ Hobj E) in Hname; discriminate].
    rewrite Hname. cbn [negb].
    destruct (has_property "prop" col) eqn:Ep.
    + destruct Hprop as [Hprop|Hprop]; [discriminate|]. rewrite Hprop. cbn [negb].
      eexists. split; [reflexivity|]. cbn. rewrite ?E, ?Ep. repeat split.
    + eexists. split; [reflexivity|]. cbn. rewrite ?E, ?Ep. repeat split.
Qed.

Lemma column_finish_fields (raw : raw_column) (c : Column) :
  column_finish raw = Ok c ->
  col_mod c = raw_mod raw /\ col_cast c = raw_cast raw
  /\ forall p, col_prop c = Some p ->
       exists v, raw_prop raw = Some v /\ isText v = true /\ p = text_of v.
Proof.
  unfold column_finish.
  destruct (negb (isText match raw_name raw with Some v => v | None => VUndefined end));
    [discriminate|].
  destruct (raw_prop raw) as [v|] eqn:Ep.
  - destruct (isText v) eqn:Ev; [|discriminate]. simpl. intros [= <-]. simpl.
    repeat split. intros p [= <-]. eauto.
  - intros [= <-]. simpl. repeat split. discriminate.
Qed.

Lemma modifiers_not_empty (m : string) : In m modifiers -> m <> "".
Proof.
  simpl. intros H.
  repeat (destruct H as [<-|H]; [discriminate|]). destruct H.
Qed.

(** The raw fields a constructed column was finished from: a modifier that
    is not empty and a cast without a leading colon, from either form. *)
Lemma Column_new_raw (col : value) (c : Column) :
  Column_new col = Ok c ->
  exists raw,
    column_finish raw = Ok c
    /\ (forall m, raw_mod raw = Some m -> m <> "")
    /\ (forall t t', raw_cast raw = Some t -> t <> String ":" t').
Proof.
  intros H. unfold Column_new in H.
  assert (Hconfig : column_finish (column_of_config col) = Ok c ->
            exists raw,
              column_finish raw = Ok c
              /\ (forall m, raw_mod raw = Some m -> m <> "")
              /\ (forall t t', raw_cast raw = Some t -> t <> String ":" t')).
  { intros Hc. exists (column_of_config col). split; [exact Hc|].
    unfold column_of_config. cbn [raw_mod raw_cast]. split.
    - intros m. destruct (get col "mod") as [| |b|n|t|f|items|props];
        simpl; rewrite ?andb_false_r; try discriminate.
      destruct (t =? "") eqn:E; simpl; [discriminate|].
      intros [= <-]. now apply String.eqb_neq.
    - intros t t'. destruct (isText (get col "cast")); [|discriminate].
      intros [= <-]. rewrite getCastName_substr.
      apply (skip_leading_split ":"%char). }
  destruct col as [| |b|n|s|f|items|props];
    try (destruct (truthy _ && _); [now apply Hconfig | discriminate]).
  exists (column_of_string s). split; [exact H|].
  unfold column_of_string.
  destruct (match_modifier (stripCnd s)) as [r|] eqn:Hm; cbn [raw_mod raw_cast].
  - destruct (match_modifier_some _ _ Hm) as (Hin & _).
    split; [|discriminate]. intros m [= <-]. now apply modifiers_not_empty.
  - split; discriminate.
Qed.

(** X3: what every constructed column has, from either form: a name, a
    property name if any, and a modifier if any, that are not empty; a cast,
    if any, without a leading colon; the escaped name of its name; the
    placeholder made of its property name (else its name) and its modifier;
    and the cast suffix of its cast, empty when the cast is. *)
Theorem Column_invariant (col : value) (c : Column) :
  Column_new col = Ok c ->
  col_name c <> ""
  /\ (forall p, col_prop c = Some p -> p <> "")
  /\ (forall m, col_mod c = Some m -> m <> "")
  /\ (forall t t', col_cast c = Some t -> t <> String ":" t')
  /\ col_escapedName c = as_name (col_name c)
  /\ col_variable c = "${" ++ prop_or_name c ++ or_empty (col_mod c) ++ "}"
  /\ col_castText c
     = match col_cast c with
       | Some t => if t =? "" then "" else "::" ++ t
       | None => ""
       end.
Proof.
  intros H. destruct (Column_new_derived _ _ H) as (Hname & Hesc & Hcast & Hvar).
  destruct (Column_new_raw _ _ H) as (raw & Hfin & Hmod & Hcst).
  destruct (column_finish_fields _ _ Hfin) as (Em & Ec & Hp).
  rewrite Em, Ec in *.
  repeat split; auto.
  intros p Hprop. destruct (Hp p Hprop) as (v & _ & Hv & ->).
  apply isText_nonempty in Hv as (t & -> & Ht). exact Ht.
Qed.

(** ** tableName.js: a TableName read back *)

Lemma TableName_new_cases (table schema : value) (tn : TableName) :
  TableName_new table schema = Ok tn ->
  exists t, t <> ""
    /\ (tn = mkTableName t None (as_name t)
        \/ exists s, s <> "" /\ tn = mkTableName t (Some s) (as_name s ++ "." ++ as_name t)).
Proof.
  rewrite TableName_new_effective. cbv zeta.
  destruct (isText (effective_table table)) eqn:Et; [|discriminate].
  apply isText_nonempty in Et as (t & -> & Ht). simpl.
  destruct (isNull (effective_schema table schema)); simpl.
  - intros [= <-]. exists t. auto.
  - destruct (effective_schema table schema) as [| |b|n|s|f|items|props];
      simpl; try discriminate.
    destruct s as [|ch s]; simpl; intros [= <-]; exists t; split; auto.
    right. exists (String ch s). split; [discriminate | reflexivity].
Qed.

(** X16: a TableName is read back from its own fields.  Given to the
    constructor as the record it is (its [table], its [schema] if set, its
    [name]), a TableName gives an equal TableName, whatever schema argument
    goes with it. *)
Theorem TableName_round_trip (table schema other : value) (tn : TableName) :
  TableName_new table schema = Ok tn ->
  TableName_new (TableName_fields tn) other = Ok tn.
Proof.
  intros H. destruct (TableName_new_cases _ _ _ H) as (t & Ht & [->|(s & Hs & ->)]);
    apply String.eqb_neq in Ht; unfold TableName_new, TableName_fields; simpl;
    rewrite Ht; simpl.
  - reflexivity.
  - destruct s as [|ch s]; [congruence | reflexivity].
Qed.

(** ** columnSet.js: the constructor on an array, and its faults *)

Lemma ColumnSet_new_array (l : list column_spec) (options : options_arg) :
  ColumnSet_new (ColumnsArray l) options =
  (this_table_inherit <- ColumnSet_options options ;;
   this_columns <- mapM column_of_spec l ;;
   Ok (mkColumnSet (fst this_table_inherit) this_columns None None None)).
Proof. reflexivity. Qed.

Lemma mapM_SpecValue (l : list value) :
  mapM column_of_spec (map SpecValue l) = mapM Column_new l.
Proof.
  induction l as [|v l IH]; [reflexivity|].
  cbn [map mapM column_of_spec]. now rewrite IH.
Qed.

(** X5: an aggregate made from an array.  The columns stand one per
    element, in the order of the array: a Column instance is used as it is,
    any other element is what the Column constructor makes of it; the table
    is the one the options give.  When an element is refused, the first such
    fault is the fault of the constructor.  An array of plain values is
    treated as the same array of elements. *)
Theorem ColumnSet_array_columns (l : list column_spec) (options : options_arg) :
  (forall cs, ColumnSet_new (ColumnsArray l) options = Ok cs ->
     Forall2 (fun spec c => column_of_spec spec = Ok c) l (cs_columns cs)
     /\ (forall c, In (SpecColumn c) l -> In c (cs_columns cs))
     /\ exists inherit, ColumnSet_options options = Ok (cs_table cs, inherit))
  /\ (forall good bad rest e t inherit,
        l = (good ++ bad :: rest)%list ->
        ColumnSet_options options = Ok (t, inherit) ->
        Forall (fun spec => exists c, column_of_spec spec = Ok c) good ->
        column_of_spec bad = Throw e ->
        ColumnSet_new (ColumnsArray l) options = Throw e)
  /\ (forall values, l = map SpecValue values ->
        ColumnSet_new (ColumnsValue (VArr values)) options
        = ColumnSet_new (ColumnsArray l) options).
Proof.
  split; [|split].
  - intros cs. rewrite ColumnSet_new_array.
    destruct (ColumnSet_options options) as [[t inherit]|]; [|discriminate]. cbn [bind fst].
    destruct (mapM column_of_spec l) as [cols|] eqn:E; [|discriminate]. cbn [bind].
    intros [= <-]. cbn [cs_columns cs_table].
    pose proof (mapM_Forall2 _ _ _ E) as HF. split; [exact HF|]. split; [|eauto].
    clear E. induction HF as [|spec c l cols Hc _ IH]; intros c0 Hin; [destruct Hin|].
    destruct Hin as [->|Hin]; [left; simpl in Hc; congruence | right; auto].
  - intros good bad rest e t inherit -> Hopt Hgood Hbad.
    rewrite ColumnSet_new_array, Hopt. cbn [bind].
    now rewrite (mapM_fault _ _ _ _ _ Hgood Hbad).
  - intros values ->. rewrite ColumnSet_new_array, mapM_SpecValue. reflexivity.
Qed.

(** X6: the faults of the ColumnSet constructor, in the order it finds
    them.  Columns that are not a non-null object are refused first,
    whatever the options; then options that are neither null, undefined nor
    an object, whatever the columns hold; then the table of the options, by
    the fault of the TableName constructor; the columns are read last. *)
Theorem ColumnSet_new_faults (columns : columns_arg) (o : value) :
  (forall v options, is_object v = false ->
     ColumnSet_new (ColumnsValue v) options
     = Throw (TypeError "Invalid parameter 'columns' specified."))
  /\ ((forall v, columns = ColumnsValue v -> is_object v = true) ->
      isNull o = false -> typeof o <> "object" ->
      ColumnSet_new columns (OptionsValue o)
      = Throw (TypeError "Invalid parameter 'options' specified."))
  /\ ((forall v, columns = ColumnsValue v -> is_object v = true) ->
      is_object o = true -> isNull (get o "table") = false ->
      forall e, TableName_new (get o "table") VUndefined = Throw e ->
      ColumnSet_new columns (OptionsValue o) = Throw e).
Proof.
  assert (Hcheck : (forall v, columns = ColumnsValue v -> is_object v = true) ->
            match columns with
            | ColumnsValue v => negb (truthy v) || negb (typeof v =? "object")
            | _ => false
            end = false).
  { intros H. destruct columns as [v| | |]; try reflexivity.
    specialize (H v eq_refl). unfold is_object in H.
    apply andb_true_iff in H as [-> ->]. reflexivity. }
  split; [|split].
  - intros v options H. unfold ColumnSet_new, is_object in *.
    apply andb_false_iff in H as [-> | ->]; [reflexivity|].
    now rewrite orb_true_r.
  - intros Hcols Hnull Htype. unfold ColumnSet_new. rewrite (Hcheck Hcols).
    unfold ColumnSet_options. rewrite Hnull. apply String.eqb_neq in Htype.
    now rewrite Htype.
  - intros Hcols Hobj Htable e He. unfold ColumnSet_new. rewrite (Hcheck Hcols).
    unfold ColumnSet_options. rewrite Htable, He.
    destruct (is_object_cases _ Hobj) as [[items ->]|[props ->]]; reflexivity.
Qed.

(** ** columnSet.js: what the methods never change *)

Lemma getUpdates_frame (cs : ColumnSet) (obj : value) :
  cs_columns (after (getUpdates cs obj)) = cs_columns cs
  /\ cs_table (after (getUpdates cs obj)) = cs_table cs
  /\ cs_names (after (getUpdates cs obj)) = cs_names cs
  /\ cs_variables (after (getUpdates cs obj)) = cs_variables cs
  /\ (cached (cs_updates cs) = true ->
      cs_updates (after (getUpdates cs obj)) = cs_updates cs).
Proof.
  unfold getUpdates. destruct (cached (cs_updates cs)); simpl; [auto|].
  destruct (updates_filter obj (cs_columns cs)) as [[kept dynamic] evs].
  destruct dynamic; simpl; repeat split; auto; discriminate.
Qed.

(** X14: the life of an aggregate.  No read of [names] or [variables] and no
    call of [getUpdates] ever changes the columns or the table; and a text
    that a cache holds, when it is not empty, is never replaced. *)
Theorem later_frame (cs cs' : ColumnSet) :
  later cs cs' ->
  cs_columns cs' = cs_columns cs
  /\ cs_table cs' = cs_table cs
  /\ (cached (cs_names cs) = true -> cs_names cs' = cs_names cs)
  /\ (cached (cs_variables cs) = true -> cs_variables cs' = cs_variables cs)
  /\ (cached (cs_updates cs) = true -> cs_updates cs' = cs_updates cs).
Proof.
  induction 1 as [cs|cs cs' _ IH|cs cs' _ IH|cs cs' obj _ IH].
  - auto.
  - destruct IH as (Hc & Ht & Hn & Hv & Hu).
    destruct (names_frame cs') as (E1 & E2 & E3 & E4). rewrite E1, E2, E3, E4.
    repeat split; auto.
    intros Hcached. specialize (Hn Hcached). unfold names.
    rewrite Hn, Hcached. simpl. exact Hn.
  - destruct IH as (Hc & Ht & Hn & Hv & Hu).
    destruct (variables_frame cs') as (E1 & E2 & E3 & E4). rewrite E1, E2, E3, E4.
    repeat split; auto.
    intros Hcached. specialize (Hv Hcached). unfold variables.
    rewrite Hv, Hcached. simpl. exact Hv.
  - destruct IH as (Hc & Ht & Hn & Hv & Hu).
    destruct (getUpdates_frame cs' obj) as (E1 & E2 & E3 & E4 & E5).
    rewrite E1, E2, E3, E4. repeat split; auto.
    intros Hcached. specialize (Hu Hcached). rewrite E5; [exact Hu|].
    now rewrite Hu.
Qed.

(** ** methods/update.js: the single-object update and the faults left *)

Lemma update_object_eq (props : list (property value)) (columns : columns_arg)
      (table : table_arg) (options capSQL : value) :
  update (VObj props) columns table options capSQL =
  (columns_table <- update_columns (VObj props) columns table ;;
   if negb (isNull options) && negb (typeof options =? "object") then
     Throw (TypeError "Invalid parameter 'options' specified.")
   else if negb (table_truthy (snd columns_table)) then
     Throw (Error "Table name is unknown.")
   else
     tn <- table_instance (snd columns_table) ;;
     let got := getUpdates (fst columns_table) (VObj props) in
     if Nat.eqb (String.length (returned got)) 0 then Throw (Error errNoColumns)
     else
       Ok (as_format (if truthy capSQL then toUpperCase "update $1^ set "
                      else "update $1^ set ")
                     (VStr (tn_name tn))
           ++ as_format (returned got) (fst (prepare (after got) (VObj props))))).
Proof. reflexivity. Qed.

Lemma format_update_one (capSQL : value) (a : string) :
  as_format (if truthy capSQL then toUpperCase "update $1^ set " else "update $1^ set ")
            (VStr a)
  = keyword capSQL "update " ++ a ++ keyword capSQL " set ".
Proof. unfold keyword. destruct (truthy capSQL); vm_compute; reflexivity. Qed.

Lemma assignments_empty (kept : list Column) :
  String.length (join (map assignment kept)) = 0 -> kept = [].
Proof.
  destruct kept as [|c kept]; [reflexivity|]. intros H.
  assert (E : join (map assignment (c :: kept)) = "")
    by (destruct (join (map assignment (c :: kept))); [reflexivity | discriminate]).
  apply join_cons_empty in E. unfold assignment in E.
  destruct (col_escapedName c); discriminate.
Qed.

Lemma filter_nil_existsb {A : Type} (f : A -> bool) (l : list A) :
  filter f l = [] <-> existsb f l = false.
Proof.
  induction l as [|a l IH]; simpl; [tauto|].
  destruct (f a); simpl; [split; discriminate | exact IH].
Qed.

Lemma getUpdates_assigned (cs : ColumnSet) (obj : value) :
  consistent cs ->
  returned (getUpdates cs obj)
  = join (map assignment (filter (assigned obj) (cs_columns cs)))
  /\ cs_columns (after (getUpdates cs obj)) = cs_columns cs.
Proof.
  intros Hc. destruct (getUpdates_consistent cs obj Hc) as (Hr & _ & _ & Hcols & _).
  split; [exact Hr | exact Hcols].
Qed.

(** X7: the single-object update.  For a plain object, columns settled to
    an aggregate (consistent, if it was given as one) of which the object
    leaves at least one to assign, a table that resolves, and options that
    are absent or an object, the statement is: update, the escaped table,
    set, and the assignments of the columns that are neither conditional
    nor skipped, in column order, filled by the formatter from
    [prepare(data)]; the two fixed words are in upper case exactly when
    [capSQL] is set. *)
Theorem update_single (props : list (property value)) (columns : columns_arg)
        (table : table_arg) (options capSQL : value)
        (cs : ColumnSet) (tbl : table_arg) (tn : TableName) :
  (forall cs0, columns = ColumnsSet cs0 -> consistent cs0) ->
  update_columns (VObj props) columns table = Ok (cs, tbl) ->
  existsb (assigned (VObj props)) (cs_columns cs) = true ->
  table_truthy tbl = true ->
  table_instance tbl = Ok tn ->
  isNull options = true \/ typeof options = "object" ->
  update (VObj props) columns table options capSQL =
  Ok (keyword capSQL "update " ++ tn_name tn ++ keyword capSQL " set "
      ++ as_format (join (map assignment (filter (assigned (VObj props)) (cs_columns cs))))
                   (fst (prepare cs (VObj props)))).
Proof.
  intros Hset Hcols Hsome Htbl Htn Hopt.
  pose proof (update_columns_consistent _ _ _ _ _ Hset Hcols) as Hc.
  rewrite update_object_eq, Hcols. cbn [bind fst snd].
  rewrite (options_accepted _ Hopt), Htbl. cbn [negb]. rewrite Htn. cbn [bind]. cbv zeta.
  destruct (getUpdates_assigned cs (VObj props) Hc) as [Hr Hafter].
  rewrite Hr, (prepare_columns cs _ _ Hafter).
  destruct (Nat.eqb (String.length (join (map assignment
              (filter (assigned (VObj props)) (cs_columns cs))))) 0) eqn:E.
  - apply Nat.eqb_eq, assignments_empty, filter_nil_existsb in E. congruence.
  - rewrite format_update_one. now rewrite !append_assoc.
Qed.

Lemma update_values_fault (good rest : list value) (bad : value) :
  forall cs index,
    Forall (fun d => is_object d = true) good -> is_object bad = false ->
    update_values cs index (good ++ bad :: rest)
    = Throw (Error ("Invalid update object at index "
                    ++ string_of_nat (index + List.length good) ++ ".")).
Proof.
  induction good as [|d good IH]; intros cs index Hgood Hbad.
  - cbn [app update_values List.length]. rewrite Nat.add_0_r.
    unfold is_object in Hbad. apply andb_false_iff in Hbad as [-> | ->];
      [reflexivity | now rewrite orb_true_r].
  - inversion_clear Hgood as [|? ? Hd Hrest].
    cbn [app update_values List.length].
    unfold is_object in Hd. apply andb_true_iff in Hd as [-> ->]. cbn [negb orb].
    destruct (variables cs) as [vars cs1].
    rewrite (IH cs1 (S index) Hrest Hbad).
    cbn [bind]. now rewrite Nat.add_succ_r.
Qed.

(** X8: a row that is not an object.  In a multi-row update that passed
    the checks on columns, options and table, and that has a column to set,
    the first element that is not a non-null object is reported by its
    index, counted from 0, whatever follows it. *)
Theorem update_invalid_row (good rest : list value) (bad : value)
        (columns : columns_arg) (table : table_arg) (options capSQL : value)
        (cs : ColumnSet) (tbl : table_arg) (tn : TableName) :
  Forall (fun d => is_object d = true) good ->
  is_object bad = false ->
  update_columns (VArr (good ++ bad :: rest)) columns table = Ok (cs, tbl) ->
  existsb (fun c => negb (is_cnd c)) (cs_columns cs) = true ->
  table_truthy tbl = true ->
  table_instance tbl = Ok tn ->
  isNull options = true \/ typeof options = "object" ->
  update (VArr (good ++ bad :: rest)) columns table options capSQL =
  Throw (Error ("Invalid update object at index "
                ++ string_of_nat (List.length good) ++ ".")).
Proof.
  intros Hgood Hbad Hcols Hsome Htbl Htn Hopt.
  rewrite update_array_eq, Hcols. cbn [bind fst snd].
  assert (Hlen : negb (truthy (VNum (Z.of_nat (List.length (good ++ bad :: rest))))) = false).
  { destruct good; reflexivity. }
  rewrite Hlen, (options_accepted _ Hopt), Htbl. cbn [negb]. rewrite Htn. cbn [bind].
  assert (Hactual :
    Nat.eqb (List.length (filter (fun c => negb (is_cnd c)) (cs_columns cs))) 0 = false).
  { destruct (filter (fun c => negb (is_cnd c)) (cs_columns cs)) eqn:E; [|reflexivity].
    apply filter_nil_existsb in E. congruence. }
  rewrite Hactual, (update_values_fault good rest bad cs 0 Hgood Hbad). reflexivity.
Qed.

(** X9: nothing to set.  When the checks on data, columns, options and table
    have passed, a multi-row update whose columns are all conditional is
    refused for having no columns, before any row is looked at; and so is a
    single-object update all of whose columns are conditional or skipped. *)
Theorem update_no_columns (data : value) (columns : columns_arg) (table : table_arg)
        (options capSQL : value) (cs : ColumnSet) (tbl : table_arg) (tn : TableName) :
  (forall cs0, columns = ColumnsSet cs0 -> consistent cs0) ->
  update_columns data columns table = Ok (cs, tbl) ->
  table_truthy tbl = true ->
  table_instance tbl = Ok tn ->
  isNull options = true \/ typeof options = "object" ->
  (forall items, data = VArr items -> items <> [] ->
     existsb (fun c => negb (is_cnd c)) (cs_columns cs) = false ->
     update data columns table options capSQL = Throw (Error errNoColumns))
  /\ (forall props, data = VObj props ->
      existsb (assigned data) (cs_columns cs) = false ->
      update data columns table options capSQL = Throw (Error errNoColumns)).
Proof.
  intros Hset Hcols Htbl Htn Hopt. split.
  - intros items -> Hne Hnone.
    rewrite update_array_eq, Hcols. cbn [bind fst snd].
    assert (Hlen : negb (truthy (VNum (Z.of_nat (List.length items)))) = false).
    { destruct items; [congruence | reflexivity]. }
    rewrite Hlen, (options_accepted _ Hopt), Htbl. cbn [negb]. rewrite Htn. cbn [bind].
    apply filter_nil_existsb in Hnone. now rewrite Hnone.
  - intros props -> Hnone.
    pose proof (update_columns_consistent _ _ _ _ _ Hset Hcols) as Hc.
    rewrite update_object_eq, Hcols. cbn [bind fst snd].
    rewrite (options_accepted _ Hopt), Htbl. cbn [negb]. rewrite Htn. cbn [bind]. cbv zeta.
    destruct (getUpdates_assigned cs (VObj props) Hc) as [Hr _]. rewrite Hr.
    apply filter_nil_existsb in Hnone. now rewrite Hnone.
Qed.

(** ** canUpdate and update together *)

Lemma countIf_split {A : Type} (f : A -> bool) (l : list A) :
  List.length l = countIf f l + countIf (fun a => negb (f a)) l.
Proof.
  unfold countIf. induction l as [|a l IH]; simpl; [reflexivity|].
  destruct (f a); simpl; lia.
Qed.

Lemma countIf_0 {A : Type} (f : A -> bool) (l : list A) :
  countIf f l = 0 <-> existsb f l = false.
Proof.
  unfold countIf. rewrite <- filter_nil_existsb.
  destruct (filter f l); simpl; split; congruence.
Qed.

Lemma canUpdate_array (cs : ColumnSet) (items : list value) :
  fst (canUpdate cs (VArr items))
  = Ok (Nat.ltb (countIf is_cnd (cs_columns cs)) (List.length (cs_columns cs))
        && negb (Nat.eqb (List.length items) 0)).
Proof. unfold canUpdate. simpl. now destruct items. Qed.

Lemma canUpdate_object (cs : ColumnSet) (props : list (property value)) :
  fst (canUpdate cs (VObj props))
  = Ok (Nat.ltb (countIf is_cnd (cs_columns cs)
                 + countIf (skipped (VObj props)) (cs_columns cs))
                (List.length (cs_columns cs))).
Proof. unfold canUpdate. simpl. now rewrite canUpdate_count_spec. Qed.

Lemma update_columns_set (data : value) (cs : ColumnSet) (table : table_arg) :
  exists tbl, update_columns data (ColumnsSet cs) table = Ok (cs, tbl).
Proof. unfold update_columns. destruct (table_isNull table); eauto. Qed.

(** X10: [canUpdate] and the multi-row [update] agree.  For an aggregate
    and an array: when [canUpdate] answers false, [update] with that
    aggregate throws, whatever the table and the options; when it answers
    true, and the rows are objects, the options valid and the table
    resolves, [update] returns a statement. *)
Theorem canUpdate_update_rows (cs : ColumnSet) (items : list value) (table : table_arg)
        (options capSQL : value) :
  consistent cs ->
  (fst (canUpdate cs (VArr items)) = Ok false ->
   exists e, update (VArr items) (ColumnsSet cs) table options capSQL = Throw e)
  /\ (fst (canUpdate cs (VArr items)) = Ok true ->
      Forall (fun d => is_object d = true) items ->
      isNull options = true \/ typeof options = "object" ->
      forall tbl tn,
        update_columns (VArr items) (ColumnsSet cs) table = Ok (cs, tbl) ->
        table_truthy tbl = true -> table_instance tbl = Ok tn ->
        exists q, update (VArr items) (ColumnsSet cs) table options capSQL = Ok q).
Proof.
  intros Hc. rewrite canUpdate_array, update_array_eq. split.
  - intros [= H]. destruct (update_columns_set (VArr items) cs table) as [tbl ->].
    cbn [bind fst snd].
    destruct items as [|d items]; [eexists; reflexivity|].
    cbn [List.length Nat.eqb negb] in H. rewrite andb_true_r in H. apply Nat.ltb_ge in H.
    assert (Hnone : filter (fun c => negb (is_cnd c)) (cs_columns cs) = []).
    { pose proof (countIf_split is_cnd (cs_columns cs)) as Hsplit.
      assert (E : countIf (fun c => negb (is_cnd c)) (cs_columns cs) = 0).
      { assert (countIf is_cnd (cs_columns cs) <= List.length (cs_columns cs))
          by (unfold countIf; apply filter_length_le).
        lia. }
      unfold countIf in E. now destruct (filter _ (cs_columns cs)). }
    rewrite Hnone.
    destruct (negb (truthy _)); [eexists; reflexivity|].
    destruct (negb (isNull options) && _); [eexists; reflexivity|].
    destruct (negb (table_truthy tbl)); [eexists; reflexivity|].
    destruct (table_instance tbl); eexists; reflexivity.
  - intros [= H] Hitems Hopt tbl tn Hcols Htbl Htn.
    apply andb_true_iff in H as [Hlt Hne]. apply Nat.ltb_lt in Hlt.
    rewrite Hcols. cbn [bind fst snd].
    assert (Hlen : negb (truthy (VNum (Z.of_nat (List.length items)))) = false).
    { destruct items; [discriminate | reflexivity]. }
    rewrite Hlen, (options_accepted _ Hopt), Htbl. cbn [negb]. rewrite Htn. cbn [bind].
    assert (Hactual :
      Nat.eqb (List.length (filter (fun c => negb (is_cnd c)) (cs_columns cs))) 0 = false).
    { pose proof (countIf_split is_cnd (cs_columns cs)) as Hsplit. unfold countIf in *.
      apply Nat.eqb_neq. lia. }
    rewrite Hactual.
    destruct (update_values_spec items cs 0 Hc Hitems) as (cs' & -> & _).
    cbn [bind]. eauto.
Qed.

Lemma columns_covered (obj : value) (cols : list Column) :
  List.length cols
  <= countIf is_cnd cols + countIf (skipped obj) cols + countIf (assigned obj) cols.
Proof.
  unfold countIf, assigned. induction cols as [|c cols IH]; simpl; [lia|].
  destruct (is_cnd c), (skipped obj c); simpl; lia.
Qed.

Lemma columns_partitioned (obj : value) (cols : list Column) :
  (forall c, In c cols -> is_cnd c = true -> skipped obj c = false) ->
  List.length cols
  = countIf is_cnd cols + countIf (skipped obj) cols + countIf (assigned obj) cols.
Proof.
  unfold countIf, assigned. induction cols as [|c cols IH]; intros H; simpl; [lia|].
  assert (IH' := IH (fun c' Hin => H c' (or_intror Hin))).
  pose proof (H c (or_introl eq_refl)) as Hc.
  destruct (is_cnd c); [rewrite (Hc eq_refl)|destruct (skipped obj c)]; simpl; lia.
Qed.

(** X11: [canUpdate] and the single-object [update].  For an aggregate and
    a plain object: when [canUpdate] answers true, and the options are valid
    and the table resolves, [update] returns a statement; when it answers
    false, [update] throws, provided no conditional column has a [skip] that
    answers truthy for the object (such a column counts twice in
    [canUpdate], which may then answer false where [update] succeeds). *)
Theorem canUpdate_update_object (cs : ColumnSet) (props : list (property value))
        (table : table_arg) (options capSQL : value) :
  consistent cs ->
  (fst (canUpdate cs (VObj props)) = Ok true ->
   isNull options = true \/ typeof options = "object" ->
   forall tbl tn,
     update_columns (VObj props) (ColumnsSet cs) table = Ok (cs, tbl) ->
     table_truthy tbl = true -> table_instance tbl = Ok tn ->
     exists q, update (VObj props) (ColumnsSet cs) table options capSQL = Ok q)
  /\ (fst (canUpdate cs (VObj props)) = Ok false ->
      (forall c, In c (cs_columns cs) -> is_cnd c = true ->
                 skipped (VObj props) c = false) ->
      exists e, update (VObj props) (ColumnsSet cs) table options capSQL = Throw e).
Proof.
  intros Hc. rewrite canUpdate_object, update_object_eq.
  destruct (getUpdates_assigned cs (VObj props) Hc) as [Hr _].
  split.
  - intros [= H] Hopt tbl tn Hcols Htbl Htn. apply Nat.ltb_lt in H.
    rewrite Hcols. cbn [bind fst snd].
    rewrite (options_accepted _ Hopt), Htbl. cbn [negb]. rewrite Htn. cbn [bind]. cbv zeta.
    rewrite Hr.
    destruct (Nat.eqb (String.length (join (map assignment
                (filter (assigned (VObj props)) (cs_columns cs))))) 0) eqn:E;
      [|eauto].
    apply Nat.eqb_eq, assignments_empty in E.
    pose proof (columns_covered (VObj props) (cs_columns cs)) as Hcov.
    unfold countIf in Hcov at 3. rewrite E in Hcov. simpl in Hcov. lia.
  - intros [= H] Hdisjoint. apply Nat.ltb_ge in H.
    destruct (update_columns_set (VObj props) cs table) as [tbl ->].
    cbn [bind fst snd].
    pose proof (columns_partitioned (VObj props) (cs_columns cs) Hdisjoint) as Hpart.
    assert (E : filter (assigned (VObj props)) (cs_columns cs) = []).
    { unfold countIf in Hpart at 3.
      destruct (filter (assigned (VObj props)) (cs_columns cs)); [reflexivity|].
      simpl in Hpart. lia. }
    destruct (negb (isNull options) && _); [eexists; reflexivity|].
    destruct (negb (table_truthy tbl)); [eexists; reflexivity|].
    destruct (table_instance tbl); [|eexists; reflexivity].
    cbn [bind]. cbv zeta. rewrite Hr, E. eexists. reflexivity.
Qed.

(** ** An aggregate made from the object it prepares *)













(** ** index.js and the table of an update *)

Lemma update_capSQL (data : value) (columns : columns_arg) (table : table_arg)
      (options c1 c2 : value) :
  truthy c1 = truthy c2 ->
  update data columns table options c1 = update data columns table options c2.
Proof. intros H. unfold update. now rewrite H. Qed.

(** X15: the capitalization of [helpers.update].  For a configuration
    object, the update of the helpers namespace is [update] with the fixed
    words in upper case exactly when the configuration has [options] and
    these have a truthy [capSQL]; any two configurations that agree on this
    give the same statement. *)
Theorem helpers_update_capSQL (config data : value) (columns : columns_arg)
        (table : table_arg) (options : value) :
  is_object config = true ->
  helpers_update config data columns table options
  = update data columns table options
      (VBool (truthy (get config "options")
              && truthy (get (get config "options") "capSQL"))).
Proof.
  intros _. unfold helpers_update, and_value. apply update_capSQL.
  destruct (truthy (get config "options")) eqn:E; simpl; [reflexivity | exact E].
Qed.

Lemma variables_with_table (cs : ColumnSet) (t : option TableName) :
  variables (with_table cs t) = (fst (variables cs), with_table (snd (variables cs)) t).
Proof.
  unfold variables, with_table. cbn [cs_variables cs_columns cs_table cs_names cs_updates].
  destruct (negb (cached (cs_variables cs))); reflexivity.
Qed.

Lemma names_with_table (cs : ColumnSet) (t : option TableName) :
  fst (names (with_table cs t)) = fst (names cs).
Proof.
  unfold names, with_table. cbn [cs_variables cs_columns cs_table cs_names cs_updates].
  destruct (negb (cached (cs_names cs))); reflexivity.
Qed.

Lemma getUpdates_with_table (cs : ColumnSet) (t : option TableName) (obj : value) :
  returned (getUpdates (with_table cs t) obj) = returned (getUpdates cs obj)
  /\ cs_columns (after (getUpdates (with_table cs t) obj))
     = cs_columns (after (getUpdates cs obj)).
Proof.
  unfold getUpdates, with_table. cbn [cs_variables cs_columns cs_table cs_names cs_updates].
  destruct (cached (cs_updates cs)); [split; reflexivity|].
  destruct (updates_filter obj (cs_columns cs)) as [[kept dynamic] evs].
  destruct dynamic; split; reflexivity.
Qed.

Lemma update_values_with_table (t : option TableName) (items : list value) :
  forall cs index,
    update_values (with_table cs t) index items
    = match update_values cs index items with
      | Ok r => Ok (fst r, with_table (snd r) t)
      | Throw e => Throw e
      end.
Proof.
  induction items as [|d items IH]; intros cs index; [reflexivity|].
  cbn [update_values].
  destruct (negb (truthy d) || negb (typeof d =? "object")); [reflexivity|].
  rewrite variables_with_table.
  destruct (variables cs) as [vars cs1]. cbn [fst snd].
  rewrite IH. rewrite (prepare_columns cs1 (with_table cs1 t) d eq_refl).
  destruct (update_values cs1 (S index) items) as [[rows cs2]|e]; reflexivity.
Qed.

(** X17: which table an update uses.  With an aggregate for columns: when
    the table argument is null or undefined, the update is the one with the
    aggregate's own table; when it is anything else, the table of the
    aggregate plays no part: the update is the same whatever table the
    aggregate has, or has not. *)
Theorem update_table_choice (data : value) (cs : ColumnSet) (table : table_arg)
        (options capSQL : value) :
  (forall t, cs_table cs = Some t -> table_isNull table = true ->
     update data (ColumnsSet cs) table options capSQL
     = update data (ColumnsSet cs) (TableInstance t) options capSQL)
  /\ (forall t', table_isNull table = false ->
      update data (ColumnsSet (with_table cs t')) table options capSQL
      = update data (ColumnsSet cs) table options capSQL).
Proof.
  split.
  - intros t Ht Hnull. unfold update, update_columns. now rewrite Hnull, Ht.
  - intros t' Hnull.
    destruct data as [| |b|n|s|f|items|props];
      try (unfold update; simpl; rewrite ?orb_true_r; reflexivity).
    + rewrite !update_array_eq. unfold update_columns. rewrite Hnull. cbn [bind fst snd].
      destruct (negb (truthy _)); [reflexivity|].
      destruct (negb (isNull options) && _); [reflexivity|].
      destruct (negb (table_truthy table)); [reflexivity|].
      destruct (table_instance table) as [tn|]; [|reflexivity]. cbn [bind].
      change (cs_columns (with_table cs t')) with (cs_columns cs).
      destruct (Nat.eqb _ 0); [reflexivity|].
      rewrite update_values_with_table.
      destruct (update_values cs 0 items) as [[rows cs2]|e]; [|reflexivity].
      cbn [bind fst snd]. now rewrite names_with_table.
    + rewrite !update_object_eq. unfold update_columns. rewrite Hnull. cbn [bind fst snd].
      destruct (negb (isNull options) && _); [reflexivity|].
      destruct (negb (table_truthy table)); [reflexivity|].
      destruct (table_instance table) as [tn|]; [|reflexivity]. cbn [bind]. cbv zeta.
      destruct (getUpdates_with_table cs t' (VObj props)) as [-> Hcols].
      now rewrite (prepare_columns _ _ (VObj props) Hcols).
Qed.

(** ** columnSet.js: prepare, entry by entry *)






(** ** methods/update.js: the faults of the arguments *)

(** X19: the faults of [data] and [options].  Data that is not a non-null
    object is refused first, whatever the other arguments; options that are
    neither null, undefined nor an object are refused once the columns are
    settled and the array, if data is one, is found not empty, whatever the
    table. *)
Theorem update_invalid_arguments (data : value) (columns : columns_arg)
        (table : table_arg) (options capSQL : value) :
  (is_object data = false ->
   update data columns table options capSQL
   = Throw (TypeError "Invalid parameter 'data' specified."))
  /\ (forall cs tbl, is_object data = true -> data <> VArr [] ->
      update_columns data columns table = Ok (cs, tbl) ->
      isNull options = false -> typeof options <> "object" ->
      update data columns table options capSQL
      = Throw (TypeError "Invalid parameter 'options' specified.")).
Proof.
  split.
  - unfold is_object, update. intros H.
    apply andb_false_iff in H as [-> | ->]; [reflexivity | now rewrite orb_true_r].
  - intros cs tbl Hobj Hne Hcols Hnull Htype.
    apply String.eqb_neq in Htype.
    destruct (is_object_cases _ Hobj) as [[items ->]|[props ->]].
    + rewrite update_array_eq, Hcols. cbn [bind].
      destruct items; [congruence|]. cbn [List.length]. now rewrite Hnull, Htype.
    + rewrite update_object_eq, Hcols. cbn [bind]. now rewrite Hnull, Htype.
Qed.

(** ** column.js: a Column given to its own constructor *)

(** X20: a Column is copied by its constructor.  Given as a configurator,
    a constructed column whose cast is not the empty text gives an equal
    column.  (A cast that is empty, left by a cast made of colons only, is
    not a text for the constructor, and is dropped.) *)
Theorem Column_copy (col : value) (c : Column) :
  Column_new col = Ok c ->
  col_cast c <> Some "" ->
  Column_new (Column_fields c) = Ok c.
Proof.
  intros H Hcast0.
  destruct (Column_new_derived _ _ H) as (Hname & Hesc & Htext & Hvar).
  destruct (Column_new_raw _ _ H) as (raw & Hfin & Hmod & Hcast).
  destruct (column_finish_fields _ _ Hfin) as (Em & Ec & Hp).
  rewrite <- Em in Hmod. rewrite <- Ec in Hcast.
  assert (Hprop : forall p, col_prop c = Some p -> p <> "").
  { intros p Hpr. destruct (Hp p Hpr) as (v & _ & Hv & ->).
    apply isText_nonempty in Hv as (t & -> & Ht). exact Ht. }
  clear H raw Hfin Em Ec Hp. destruct c as [nm pr md cst cnd def ini skp var ctext esc].
  cbn [col_name col_prop col_mod col_cast col_escapedName col_variable col_castText] in *.
  unfold prop_or_name in Hvar.
  cbn [col_name col_prop col_mod col_cast col_escapedName col_variable col_castText] in *.
  subst var ctext esc.
  apply String.eqb_neq in Hname.
  assert (Hpr : forall p, pr = Some p -> (p =? "") = false)
    by (intros p Hp; apply String.eqb_neq; auto).
  assert (Hmd : forall m, md = Some m -> (m =? "") = false)
    by (intros m Hm; apply String.eqb_neq; auto).
  assert (Hcs : forall t, cst = Some t -> (t =? "") = false /\ getCastName t = t).
  { intros t Ht. split.
    - apply String.eqb_neq. congruence.
    - unfold getCastName. destruct t as [|ch t]; [reflexivity|]. simpl.
      destruct (Ascii.eqb_spec ch ":"%char) as [->|]; [|reflexivity].
      destruct (Hcast _ t Ht eq_refl). }
  clear Hprop Hmod Hcast Hcast0.
  rewrite Column_new_config by reflexivity.
  unfold Column_fields, column_of_config, column_finish.
  cbn [col_name col_prop col_mod col_cast col_cnd col_def col_init col_skip
       col_escapedName col_variable col_castText].
  destruct pr as [p|]; [rewrite (Hpr p eq_refl) in *|];
    destruct md as [m|]; [pose proof (Hmd m eq_refl) as Em| |pose proof (Hmd m eq_refl) as Em|];
    destruct cst as [t|];
    try (destruct (Hcs t eq_refl) as [Et Eg]);
    destruct cnd as [b|]; destruct def as [d|]; destruct ini as [f|]; destruct skp as [g|];
    simpl; rewrite ?Hname, ?Em, ?Et, ?Eg; simpl; rewrite ?(Hpr _ eq_refl), ?Hname, ?Et;
    simpl; try reflexivity; destruct b; reflexivity.
Qed.

(** ** methods/update.js: what a multi-row update never reads *)

Lemma without_skip_cnd (cols : list Column) :
  filter (fun c => negb (is_cnd c)) (map without_skip cols)
  = map without_skip (filter (fun c => negb (is_cnd c)) cols).
Proof.
  induction cols as [|c cols IH]; [reflexivity|]. simpl.
  change (is_cnd (without_skip c)) with (is_cnd c).
  destruct (is_cnd c); simpl; now rewrite IH.
Qed.

Lemma prepare_without_skip (cs : ColumnSet) (d : value) :
  prepare (ColumnSet_without_skip cs) d = prepare cs d.
Proof.
  unfold prepare, ColumnSet_without_skip. cbn [cs_columns].
  generalize Object_prototype as target.
  induction (cs_columns cs) as [|c cols IH]; intros target; [reflexivity|].
  cbn [map prepare_loop].
  change (prepare_column d target (without_skip c)) with (prepare_column d target c).
  destruct (prepare_column d target c) as [target1 calls1].
  specialize (IH target1).
  destruct (prepare_loop d target1 (map without_skip cols)) as [t2 c2].
  destruct (prepare_loop d target1 cols) as [t2' c2'].
  now injection IH as -> ->.
Qed.

Lemma variables_without_skip (cs : ColumnSet) :
  variables (ColumnSet_without_skip cs)
  = (fst (variables cs), ColumnSet_without_skip (snd (variables cs))).
Proof.
  unfold variables, ColumnSet_without_skip.
  cbn [cs_variables cs_columns cs_table cs_names cs_updates].
  rewrite map_map.
  destruct (negb (cached (cs_variables cs))); reflexivity.
Qed.

Lemma names_without_skip (cs : ColumnSet) :
  fst (names (ColumnSet_without_skip cs)) = fst (names cs).
Proof.
  unfold names, ColumnSet_without_skip.
  cbn [cs_variables cs_columns cs_table cs_names cs_updates].
  rewrite map_map.
  destruct (negb (cached (cs_names cs))); reflexivity.
Qed.

Lemma update_values_without_skip (items : list value) :
  forall cs index,
    update_values (ColumnSet_without_skip cs) index items
    = match update_values cs index items with
      | Ok r => Ok (fst r, ColumnSet_without_skip (snd r))
      | Throw e => Throw e
      end.
Proof.
  induction items as [|d items IH]; intros cs index; [reflexivity|].
  cbn [update_values].
  destruct (negb (truthy d) || negb (typeof d =? "object")); [reflexivity|].
  rewrite variables_without_skip.
  destruct (variables cs) as [vars cs1]. cbn [fst snd].
  rewrite IH, prepare_without_skip.
  destruct (update_values cs1 (S index) items) as [[rows cs2]|e]; reflexivity.
Qed.

(** X21: a multi-row update never reads [skip].  For an array, the update
    with an aggregate is the update with the same aggregate stripped of
    every [skip]: same statement, same fault. *)
Theorem update_rows_ignore_skip (items : list value) (cs : ColumnSet) (table : table_arg)
        (options capSQL : value) :
  update (VArr items) (ColumnsSet (ColumnSet_without_skip cs)) table options capSQL
  = update (VArr items) (ColumnsSet cs) table options capSQL.
Proof.
  rewrite !update_array_eq. unfold update_columns.
  change (cs_table (ColumnSet_without_skip cs)) with (cs_table cs).
  destruct (table_isNull table); cbn [bind fst snd];
    (destruct (negb (truthy _)); [reflexivity|]);
    (destruct (negb (isNull options) && _); [reflexivity|]);
    (destruct (negb (table_truthy _)); [reflexivity|]);
    (destruct (table_instance _) as [tn|]; [|reflexivity]); cbn [bind];
    change (cs_columns (ColumnSet_without_skip cs)) with (map without_skip (cs_columns cs));
    rewrite without_skip_cnd, length_map, map_map, update_values_without_skip;
    (destruct (Nat.eqb _ 0); [reflexivity|]);
    (destruct (update_values cs 0 items) as [[rows cs2]|e]; [|reflexivity]);
    cbn [bind fst snd]; now rewrite names_without_skip.
Qed.

End Helpers.

(** * The helpers at work *)

(** ** Column *)

Example Column_plain :
  Column_new quote_name (VStr "colName")
  = Ok (mkColumn "colName" None None None None None None None
                 "${colName}" "" (quote_name "colName")).
Proof. reflexivity. Qed.

Example Column_modifier :
  Column_new quote_name (VStr "??colName:csv")
  = Ok (mkColumn "colName" None (Some ":csv") None (Some true) None None None
                 "${colName:csv}" "" (quote_name "colName")).
Proof. reflexivity. Qed.

Example Column_text_after_modifier :
  Column_new quote_name (VStr "a^b")
  = Ok (mkColumn "a" None (Some "^") None None None None None
                 "${a^}" "" (quote_name "a")).
Proof. reflexivity. Qed.

Example Column_config :
  Column_new quote_name
    (object [own "name" (VStr "colName"); own "prop" (VStr "propName");
           own "mod" (VStr "^"); own "cast" (VStr "::int"); own "def" (VNum 123)])
  = Ok (mkColumn "colName" (Some "propName") (Some "^") (Some "int") None
                 (Some (VNum 123)) None None
                 "${propName^}" "::int" (quote_name "colName")).
Proof. reflexivity. Qed.

Example Column_number :
  Column_new quote_name (VNum 5)
  = Throw (TypeError "A column must be a string or a configurator object.").
Proof. reflexivity. Qed.

Example Column_no_name :
  Column_new quote_name (VStr "")
  = Throw (TypeError "A column name must be a non-empty text string.")
  /\ Column_new quote_name (VStr "?")
     = Throw (TypeError "A column name must be a non-empty text string.")
  /\ Column_new quote_name (VStr "???^x")
     = Throw (TypeError "A column name must be a non-empty text string.").
Proof. repeat split. Qed.

(** C10 at the string [?:csv]. *)
Lemma Column_of_string_no_name_witness :
  Column_new quote_name (VStr "?:csv")
  = Throw (TypeError "A column name must be a non-empty text string.").
Proof.
  apply (Column_of_string_no_name quote_name "?:csv" ":csv" 1).
  - reflexivity.
  - right. exists ":csv", "". split; [simpl; tauto | reflexivity].
Defined.

(** ** TableName *)

Example TableName_plain :
  TableName_new quote_name (VStr "my-table") VUndefined
  = Ok (mkTableName "my-table" None (quote_name "my-table")).
Proof. reflexivity. Qed.

Example TableName_record :
  TableName_new quote_name
    (object [own "table" (VStr "tbl"); own "schema" (VStr "sch")]) (VStr "other")
  = Ok (mkTableName "tbl" (Some "sch") (quote_name "sch" ++ "." ++ quote_name "tbl")).
Proof. reflexivity. Qed.

Example TableName_empty_schema :
  TableName_new quote_name (VStr "tbl") (VStr "")
  = Ok (mkTableName "tbl" None (quote_name "tbl")).
Proof. reflexivity. Qed.

Example TableName_bad_schema :
  TableName_new quote_name (VStr "tbl") (VNum 1) = Throw (TypeError "Invalid schema name.")
  /\ TableName_new quote_name (VStr "") (VNum 1)
     = Throw (TypeError "Table name must be non-empty text string.").
Proof. split; reflexivity. Qed.

(** ** ColumnSet *)

Example ColumnSet_of_array :
  ColumnSet_new quote_name sample_call (ColumnsValue (VArr [VStr "?id"; VStr "val"; VStr "msg"]))
                (OptionsValue VUndefined)
  = Ok sample_set.
Proof. reflexivity. Qed.

Example ColumnSet_inherit :
  ColumnSet_new quote_name sample_call
    (ColumnsValue (VObj ([own "a" (VNum 1); inherited "b" (VNum 2)] ++ Object_prototype)%list))
    (OptionsValue (object [own "inherit" (VBool true)]))
  = Ok (mkColumnSet None [same_named quote_name "a"; same_named quote_name "b"]
                    None None None)
  /\ ColumnSet_new quote_name sample_call
       (ColumnsValue (VObj ([own "a" (VNum 1); inherited "b" (VNum 2)] ++ Object_prototype)%list))
       (OptionsValue VUndefined)
     = Ok (mkColumnSet None [same_named quote_name "a"] None None None).
Proof. split; reflexivity. Qed.



(** C9 at the sample columns: with texts in the caches, which are read as
    they are, and as the constructor leaves them. *)
Lemma names_variables_cached_witness :
  names (mkColumnSet None sample_columns (Some "(memo)") (Some "memo") None)
  = ("(memo)", mkColumnSet None sample_columns (Some "(memo)") (Some "memo") None)
  /\ variables (mkColumnSet None sample_columns (Some "(memo)") (Some "memo") None)
     = ("memo", mkColumnSet None sample_columns (Some "(memo)") (Some "memo") None)
  /\ fst (names sample_set)
     = "(" ++ join [quote_name "id"; quote_name "val"; quote_name "msg"] ++ ")"
  /\ fst (variables sample_set) = "${id},${val},${msg}"
  /\ cs_names (snd (names sample_set)) = Some (fst (names sample_set))
  /\ cs_variables (snd (variables sample_set)) = Some (fst (variables sample_set)).
Proof.
  destruct (names_variables_cached sample_call
              (mkColumnSet None sample_columns (Some "(memo)") (Some "memo") None)
              sample_set) as (Hn & Hv & _).
  split; [apply Hn; [reflexivity | discriminate]|].
  split; [apply Hv; [reflexivity | discriminate]|].
  destruct (names_variables_cached sample_call sample_set sample_set)
    as (_ & _ & _ & _ & H).
  destruct H as (H1 & H2 & H3 & H4 & _).
  - apply fresh_consistent. repeat split.
  - constructor.
  - repeat constructor; discriminate.
  - repeat split; assumption.
Defined.

Example names_of_no_columns :
  fst (names (mkColumnSet None [] None None None)) = ""
  /\ fst (variables (mkColumnSet None [] None None None)) = "".
Proof. split; reflexivity. Qed.

Example getUpdates_skips :
  getUpdates sample_call skipping_set (object [own "msg" (VStr "hello")])
  = mkOutcome (quote_name "msg" ++ "=${msg}") skipping_set
              [mkCall 1 (object [own "msg" (VStr "hello")]) (VStr "val")]
  /\ returned (getUpdates sample_call skipping_set
                          (object [own "val" (VNum 1); own "msg" (VStr "hello")]))
     = quote_name "val" ++ "=${val}," ++ quote_name "msg" ++ "=${msg}".
Proof. split; reflexivity. Qed.

(** C5 at the columns with a [skip] and the object [{msg: 'hello'}], at the
    sample columns, and with a text in the cache, which is read as it is. *)
Lemma getUpdates_spec_witness :
  getUpdates sample_call (mkColumnSet None skipping_columns None None (Some "memo"))
             (object [own "msg" (VStr "hello")])
  = mkOutcome "memo" (mkColumnSet None skipping_columns None None (Some "memo")) []
  /\ (let r := getUpdates sample_call skipping_set (object [own "msg" (VStr "hello")]) in
      returned r = quote_name "msg" ++ "=${msg}"
      /\ calls r = [mkCall 1 (object [own "msg" (VStr "hello")]) (VStr "val")]
      /\ cs_updates (after r) = None)
  /\ (let r := getUpdates sample_call sample_set (object [own "val" (VNum 1)]) in
      returned r = quote_name "val" ++ "=${val}," ++ quote_name "msg" ++ "=${msg}"
      /\ calls r = []
      /\ cs_updates (after r) = Some (returned r)
      /\ returned (getUpdates sample_call (after r) VNull) = returned r).
Proof.
  split; [|split].
  - apply (getUpdates_spec sample_call
             (mkColumnSet None skipping_columns None None (Some "memo")) sample_set);
      [reflexivity | discriminate].
  - assert (Hc : consistent skipping_set) by (apply fresh_consistent; repeat split).
    destruct (getUpdates_spec sample_call skipping_set skipping_set
                (object [own "msg" (VStr "hello")])) as (_ & H).
    destruct (H Hc (later_now sample_call skipping_set)) as (Hr & _ & Hu & _).
    split; [exact Hr|]. split; [reflexivity | exact Hu].
  - assert (Hc : consistent sample_set) by (apply fresh_consistent; repeat split).
    destruct (getUpdates_spec sample_call sample_set sample_set
                (object [own "val" (VNum 1)])) as (_ & H).
    destruct (H Hc (later_now sample_call sample_set)) as (Hr & Hcalls & Hu & Hlater).
    split; [exact Hr|]. split; [reflexivity|]. split; [exact Hu|].
    apply (Hlater eq_refl). constructor.
Defined.

Example canUpdate_examples :
  canUpdate sample_call sample_set (VArr [object []]) = (Ok true, [])
  /\ canUpdate sample_call sample_set (VArr []) = (Ok false, [])
  /\ canUpdate sample_call (mkColumnSet None [hd (same_named quote_name "id") sample_columns]
                                        None None None)
               (VArr [object []]) = (Ok false, [])
  /\ canUpdate sample_call skipping_set (object [own "msg" (VStr "x")])
     = (Ok false, [mkCall 1 (object [own "msg" (VStr "x")]) (VStr "id");
                   mkCall 1 (object [own "msg" (VStr "x")]) (VStr "val")])
  /\ canUpdate sample_call sample_set (VNum 3)
     = (Throw (TypeError "Invalid parameter 'data' specified."), []).
Proof. repeat split. Qed.

(** ** prepare *)

Example prepare_defaults :
  fst (prepare sample_call (mkColumnSet None [with_default] None None None) (object []))
  = object [own "name" (VNum 5)]
  /\ fst (prepare sample_call (mkColumnSet None [with_default_init] None None None)
                  (object []))
     = object [own "name" (VNum 10)]
  /\ fst (prepare sample_call (mkColumnSet None [same_named quote_name "name"]
                                           None None None) (object []))
     = object [].
Proof. repeat split. Qed.

(** What [{}] inherits is found by [in]: a column named [toString] copies the
    function of [Object.prototype], and an object without prototype has no
    such property. *)
Example prepare_inherited :
  prepare sample_call (mkColumnSet None [same_named quote_name "toString"] None None None)
          (object [])
  = (object [own "toString" (native "Object.prototype.toString")], [])
  /\ prepare sample_call
       (mkColumnSet None [same_named quote_name "toString"] None None None) (VObj [])
     = (object [], []).
Proof. split; reflexivity. Qed.

(** A column named [__proto__] writes no property: the assignment goes
    through the setter of [Object.prototype], which replaces the prototype
    when the value is an object and does nothing when it is a number. *)
Example prepare_proto :
  fst (prepare sample_call
         (mkColumnSet None [same_named quote_name "__proto__"; same_named quote_name "a"]
                      None None None)
         (object [own "__proto__" (VObj [own "b" (VNum 2)]); own "a" (VNum 1)]))
  = VObj [own "a" (VNum 1); inherited "b" (VNum 2)]
  /\ fst (prepare sample_call
            (mkColumnSet None [same_named quote_name "__proto__"; same_named quote_name "a"]
                         None None None)
            (object [own "__proto__" (VNum 5); own "a" (VNum 1)]))
     = object [own "a" (VNum 1)]
  /\ fst (prepare sample_call
            (mkColumnSet None [same_named quote_name "__proto__"] None None None)
            (object []))
     = object [].
Proof. repeat split. Qed.

(** The order of enumeration: array indices first, in ascending order. *)
Example for_in_order :
  for_in (object [own "b" (VNum 1); own "10" (VNum 2); own "9" (VNum 3);
                  own "01" (VNum 4); own "a" (VNum 5)])
  = ["9"; "10"; "b"; "01"; "a"]
  /\ index_of_key "4294967294" = Some 4294967294%N
  /\ index_of_key "4294967295" = None
  /\ index_of_key "-1" = None /\ index_of_key "1.5" = None /\ index_of_key "" = None.
Proof. repeat split. Qed.



(** ** update *)

Example update_one :
  update quote_name sample_call literal literal_named sample_toString
    (hd VNull sample_rows) (ColumnsValue VNull) (TableValue (VStr "my-table"))
                VUndefined VUndefined
  = Ok ("update " ++ quote_name "my-table" ++ " set " ++ quote_name "id" ++ "=1,"
        ++ quote_name "val" ++ "=123," ++ quote_name "msg" ++ "='hello'").
Proof. reflexivity. Qed.

Example update_rows :
  update quote_name sample_call literal literal_named sample_toString
    (VArr sample_rows)
                (ColumnsValue (VArr [VStr "?id"; VStr "val"; VStr "msg"]))
                (TableValue (VStr "my-table")) VUndefined (VBool true)
  = Ok ("UPDATE " ++ quote_name "my-table" ++ " AS t SET "
        ++ quote_name "val" ++ "=v." ++ quote_name "val" ++ ","
        ++ quote_name "msg" ++ "=v." ++ quote_name "msg"
        ++ " FROM (VALUES(1,123,'hello'),(2,456,'world!')) AS v("
        ++ quote_name "id" ++ "," ++ quote_name "val" ++ "," ++ quote_name "msg" ++ ")").
Proof. reflexivity. Qed.

Example update_faults_examples :
  update quote_name sample_call literal literal_named sample_toString
    (VArr sample_rows) (ColumnsValue VUndefined) (TableValue (VStr "t"))
                VUndefined VUndefined
  = Throw (TypeError "Parameter 'columns' is required when updating multiple records.")
  /\ update quote_name sample_call literal literal_named sample_toString
      (VArr []) (ColumnsValue VNull) (TableValue (VStr "t"))
                   VUndefined VUndefined
     = Throw (TypeError "Parameter 'columns' is required when updating multiple records.")
  /\ update quote_name sample_call literal literal_named sample_toString
      (VArr []) (ColumnsSet sample_set) (TableValue VNull)
                   VUndefined VUndefined
     = Throw (TypeError "Cannot generate an UPDATE from an empty array.")
  /\ update quote_name sample_call literal literal_named sample_toString
      (VArr sample_rows) (ColumnsSet sample_set) (TableValue VNull)
                   VUndefined VUndefined
     = Throw (Error "Table name is unknown.")
  /\ update quote_name sample_call literal literal_named sample_toString
      (VArr [object []; VNum 3]) (ColumnsSet sample_set)
                   (TableValue (VStr "t")) VUndefined VUndefined
     = Throw (Error "Invalid update object at index 1.").
Proof. repeat split. Qed.

(** The claim C7 fails on an empty array with the columns [['']]: the fault
    is that of the column's name, raised while the columns are made into an
    aggregate, before the array is found empty. *)
Lemma update_faults_counterexample :
  update quote_name sample_call literal literal_named sample_toString
    (VArr []) (ColumnsValue (VArr [VStr ""])) (TableValue (VStr "tbl"))
                VUndefined VUndefined
  = Throw (TypeError "A column name must be a non-empty text string.").
Proof. reflexivity. Qed.

(** C1 at the rows and columns of the example, with aliases set by the
    options. *)
Lemma update_many_witness :
  update quote_name sample_call literal literal_named sample_toString
    (VArr sample_rows) (ColumnsSet sample_set) (TableValue (VStr "my-table"))
                (object [own "tableAlias" (VStr "X"); own "valueAlias" (VStr "Y")])
                VUndefined
  = Ok ("update " ++ quote_name "my-table" ++ " as X set "
        ++ quote_name "val" ++ "=Y." ++ quote_name "val" ++ ","
        ++ quote_name "msg" ++ "=Y." ++ quote_name "msg"
        ++ " from (values(1,123,'hello'),(2,456,'world!')) as Y("
        ++ quote_name "id" ++ "," ++ quote_name "val" ++ "," ++ quote_name "msg" ++ ")").
Proof.
  rewrite (update_many quote_name sample_call literal literal_named sample_toString
             sample_rows (ColumnsSet sample_set) (TableValue (VStr "my-table"))
             (object [own "tableAlias" (VStr "X"); own "valueAlias" (VStr "Y")])
             VUndefined sample_set (TableValue (VStr "my-table"))
             (mkTableName "my-table" None (quote_name "my-table"))).
  - reflexivity.
  - discriminate.
  - repeat constructor.
  - intros cs0 [= <-]. apply fresh_consistent. repeat split.
  - reflexivity.
  - reflexivity.
  - reflexivity.
  - reflexivity.
  - right. reflexivity.
Defined.

(** * The further properties at work *)

(** X1 at the string [??colName:csv]. *)
Lemma Column_string_round_trip_witness :
  Column_new quote_name (VStr "?colName:csv")
  = Ok (mkColumn "colName" None (Some ":csv") None (Some true) None None None
                 "${colName:csv}" "" (quote_name "colName")).
Proof.
  apply (Column_string_round_trip quote_name "??colName:csv"
           (mkColumn "colName" None (Some ":csv") None (Some true) None None None
                     "${colName:csv}" "" (quote_name "colName"))).
  reflexivity.
Defined.

Example getCastName_examples :
  getCastName "::int" = "int" /\ getCastName "int" = "int" /\ getCastName ":::" = ""
  /\ stripCnd "??id" = "id".
Proof. repeat split. Qed.

Example Column_config_faults :
  Column_new quote_name (object [own "prop" (VStr "")])
  = Throw (TypeError "A column name must be a non-empty text string.")
  /\ Column_new quote_name (object [own "name" (VStr "a"); own "prop" (VStr "")])
     = Throw (TypeError "A property name must be a non-empty text string.")
  /\ Column_new quote_name (object [own "name" (VStr "a"); own "def" VUndefined;
                                  own "cnd" (VNum 0); own "cast" (VStr ":::")])
     = Ok (mkColumn "a" None None (Some "") (Some false) (Some VUndefined) None None
                    "${a}" "" (quote_name "a")).
Proof. repeat split. Qed.

(** X3 at a configurator with a property name, a modifier and a cast. *)
Lemma Column_invariant_witness :
  exists c,
    Column_new quote_name
      (object [own "name" (VStr "colName"); own "prop" (VStr "propName");
             own "mod" (VStr "^"); own "cast" (VStr "::int")]) = Ok c
    /\ col_cast c = Some "int"
    /\ col_escapedName c = quote_name "colName"
    /\ col_variable c = "${propName^}"
    /\ col_castText c = "::int".
Proof.
  eexists. split; [reflexivity|].
  destruct (Column_invariant quote_name
              (object [own "name" (VStr "colName"); own "prop" (VStr "propName");
                     own "mod" (VStr "^"); own "cast" (VStr "::int")])
              _ eq_refl) as (_ & _ & _ & _ & Hesc & Hvar & Hcast).
  split; [reflexivity|]. split; [exact Hesc|]. split; [exact Hvar | exact Hcast].
Defined.

(** X16 at a table with a schema. *)
Lemma TableName_round_trip_witness :
  TableName_new quote_name
    (instance "TableName"
       [own "schema" (VStr "sch"); own "table" (VStr "tbl");
        own "name" (VStr (quote_name "sch" ++ "." ++ quote_name "tbl"))])
    (VStr "other")
  = Ok (mkTableName "tbl" (Some "sch") (quote_name "sch" ++ "." ++ quote_name "tbl")).
Proof.
  apply (TableName_round_trip quote_name (VStr "tbl") (VStr "sch") (VStr "other")
           (mkTableName "tbl" (Some "sch") (quote_name "sch" ++ "." ++ quote_name "tbl"))).
  reflexivity.
Defined.

Example ColumnSet_faults_examples :
  ColumnSet_new quote_name sample_call (ColumnsValue (VNum 5)) (OptionsValue (VNum 1))
  = Throw (TypeError "Invalid parameter 'columns' specified.")
  /\ ColumnSet_new quote_name sample_call (ColumnsValue (VArr [VStr ""])) (OptionsValue (VNum 1))
     = Throw (TypeError "Invalid parameter 'options' specified.")
  /\ ColumnSet_new quote_name sample_call (ColumnsValue (VArr [VStr ""]))
                   (OptionsValue (object [own "table" (VStr "")]))
     = Throw (TypeError "Table name must be non-empty text string.")
  /\ ColumnSet_new quote_name sample_call (ColumnsArray [SpecColumn with_default; SpecValue (VStr "a");
                                             SpecValue (VStr "?"); SpecValue (VNum 1)])
                   (OptionsValue VNull)
     = Throw (TypeError "A column name must be a non-empty text string.").
Proof. repeat split. Qed.

(** X14 after a read of [names] and a call of [getUpdates]. *)
Lemma later_frame_witness :
  cs_columns (after (getUpdates sample_call (snd (names sample_set)) VNull))
  = sample_columns
  /\ cs_table (after (getUpdates sample_call (snd (names sample_set)) VNull)) = None.
Proof.
  destruct (later_frame sample_call sample_set
              (after (getUpdates sample_call (snd (names sample_set)) VNull)))
    as (Hc & Ht & _).
  - do 3 constructor.
  - split; [exact Hc | exact Ht].
Defined.

(** X7 at the first row of the examples and the sample columns. *)
Lemma update_single_witness :
  update quote_name sample_call literal literal_named sample_toString
    (object [own "id" (VNum 1); own "val" (VNum 123); own "msg" (VStr "hello")])
    (ColumnsSet sample_set) (TableValue (VStr "my-table")) VUndefined (VBool true)
  = Ok ("UPDATE " ++ quote_name "my-table" ++ " SET "
        ++ quote_name "val" ++ "=123," ++ quote_name "msg" ++ "='hello'").
Proof.
  unfold object.
  rewrite (update_single quote_name sample_call literal literal_named sample_toString
             ([own "id" (VNum 1); own "val" (VNum 123); own "msg" (VStr "hello")]
              ++ Object_prototype)%list
             (ColumnsSet sample_set) (TableValue (VStr "my-table")) VUndefined (VBool true)
             sample_set (TableValue (VStr "my-table"))
             (mkTableName "my-table" None (quote_name "my-table"))).
  - reflexivity.
  - intros cs0 [= <-]. apply fresh_consistent. repeat split.
  - reflexivity.
  - reflexivity.
  - reflexivity.
  - reflexivity.
  - left. reflexivity.
Defined.

(** X8 at rows of which the second is a number. *)
Lemma update_invalid_row_witness :
  update quote_name sample_call literal literal_named sample_toString
    (VArr [object []; VNum 3; VNull]) (ColumnsSet sample_set) (TableValue (VStr "t"))
    VUndefined VUndefined
  = Throw (Error "Invalid update object at index 1.").
Proof.
  apply (update_invalid_row quote_name sample_call literal literal_named sample_toString
           [object []] [VNull] (VNum 3) (ColumnsSet sample_set) (TableValue (VStr "t"))
           VUndefined VUndefined sample_set (TableValue (VStr "t"))
           (mkTableName "t" None (quote_name "t"))).
  - repeat constructor.
  - reflexivity.
  - reflexivity.
  - reflexivity.
  - reflexivity.
  - reflexivity.
  - left. reflexivity.
Defined.

(** X9 at an aggregate whose only column is conditional. *)
Lemma update_no_columns_witness :
  update quote_name sample_call literal literal_named sample_toString
    (VArr [VNum 3]) (ColumnsSet conditional_set) (TableValue (VStr "t"))
    VUndefined VUndefined
  = Throw (Error errNoColumns).
Proof.
  destruct (update_no_columns quote_name sample_call literal literal_named sample_toString
              (VArr [VNum 3]) (ColumnsSet conditional_set) (TableValue (VStr "t"))
              VUndefined VUndefined conditional_set (TableValue (VStr "t"))
              (mkTableName "t" None (quote_name "t"))) as [Harr _].
  - intros cs0 [= <-]. apply fresh_consistent. repeat split.
  - reflexivity.
  - reflexivity.
  - reflexivity.
  - left. reflexivity.
  - apply (Harr [VNum 3]); [reflexivity | discriminate | reflexivity].
Defined.

(** X10 at the sample columns and the rows of the examples. *)
Lemma canUpdate_update_rows_witness :
  (exists e,
      update quote_name sample_call literal literal_named sample_toString
        (VArr []) (ColumnsSet sample_set) (TableValue (VStr "t")) VUndefined VUndefined
      = Throw e)
  /\ (exists q,
         update quote_name sample_call literal literal_named sample_toString
           (VArr sample_rows) (ColumnsSet sample_set) (TableValue (VStr "t"))
           VUndefined VUndefined
         = Ok q).
Proof.
  assert (Hc : consistent sample_set) by (apply fresh_consistent; repeat split).
  split.
  - apply (canUpdate_update_rows quote_name sample_call literal literal_named
             sample_toString sample_set [] (TableValue (VStr "t")) VUndefined VUndefined Hc).
    reflexivity.
  - apply (canUpdate_update_rows quote_name sample_call literal literal_named
             sample_toString sample_set sample_rows (TableValue (VStr "t"))
             VUndefined VUndefined Hc)
      with (tbl := TableValue (VStr "t")) (tn := mkTableName "t" None (quote_name "t")).
    + reflexivity.
    + repeat constructor.
    + left. reflexivity.
    + reflexivity.
    + reflexivity.
    + reflexivity.
Defined.

Example canUpdate_counts_twice :
  fst (canUpdate sample_call
         (mkColumnSet None [hd with_default skipping_columns; with_default] None None None)
         (object []))
  = Ok false
  /\ update quote_name sample_call literal literal_named sample_toString
       (object [])
       (ColumnsSet (mkColumnSet None [hd with_default skipping_columns; with_default]
                                None None None))
       (TableValue (VStr "t")) VUndefined VUndefined
     = Ok ("update " ++ quote_name "t" ++ " set " ++ quote_name "name" ++ "=5").
Proof. split; reflexivity. Qed.

(** X11 at the columns with a [skip] and an object that has [val]. *)
Lemma canUpdate_update_object_witness :
  (exists q,
      update quote_name sample_call literal literal_named sample_toString
        (object [own "id" (VNum 1); own "val" (VNum 2)]) (ColumnsSet skipping_set)
        (TableValue (VStr "t")) VUndefined VUndefined
      = Ok q)
  /\ (exists e,
         update quote_name sample_call literal literal_named sample_toString
           (object [own "id" (VNum 1)]) (ColumnsSet conditional_set)
           (TableValue (VStr "t")) VUndefined VUndefined
         = Throw e).
Proof.
  split.
  - apply (canUpdate_update_object quote_name sample_call literal literal_named
             sample_toString skipping_set
             ([own "id" (VNum 1); own "val" (VNum 2)] ++ Object_prototype)%list
             (TableValue (VStr "t")) VUndefined VUndefined)
      with (tbl := TableValue (VStr "t")) (tn := mkTableName "t" None (quote_name "t")).
    + apply fresh_consistent. repeat split.
    + reflexivity.
    + left. reflexivity.
    + reflexivity.
    + reflexivity.
    + reflexivity.
  - apply (canUpdate_update_object quote_name sample_call literal literal_named
             sample_toString conditional_set ([own "id" (VNum 1)] ++ Object_prototype)%list
             (TableValue (VStr "t")) VUndefined VUndefined).
    + apply fresh_consistent. repeat split.
    + reflexivity.
    + intros c [<-|[]] _. reflexivity.
Defined.



(** X15 at a configuration that asks for capitals. *)
Lemma helpers_update_capSQL_witness :
  helpers_update quote_name sample_call literal literal_named sample_toString
    (object [own "options" (object [own "capSQL" (VNum 1)])])
    (hd VNull sample_rows) (ColumnsSet sample_set) (TableValue (VStr "t")) VUndefined
  = Ok ("UPDATE " ++ quote_name "t" ++ " SET "
        ++ quote_name "val" ++ "=123," ++ quote_name "msg" ++ "='hello'").
Proof.
  rewrite (helpers_update_capSQL quote_name sample_call literal literal_named
             sample_toString (object [own "options" (object [own "capSQL" (VNum 1)])])).
  - reflexivity.
  - reflexivity.
Defined.

Example helpers_update_plain :
  helpers_update quote_name sample_call literal literal_named sample_toString
    (object []) (hd VNull sample_rows) (ColumnsSet sample_set) (TableValue (VStr "t"))
    VUndefined
  = Ok ("update " ++ quote_name "t" ++ " set "
        ++ quote_name "val" ++ "=123," ++ quote_name "msg" ++ "='hello'").
Proof. reflexivity. Qed.



Lemma Column_copy_witness :
  Column_new quote_name (VStr "?total:csv")
  = Ok (mkColumn "total" None (Some ":csv") None (Some true) None None None
                 "${total:csv}" "" (quote_name "total"))
  /\ Column_new quote_name
       (Column_fields (mkColumn "total" None (Some ":csv") None (Some true) None None None
                                "${total:csv}" "" (quote_name "total")))
     = Ok (mkColumn "total" None (Some ":csv") None (Some true) None None None
                    "${total:csv}" "" (quote_name "total")).
Proof.
  split; [reflexivity|].
  apply (Column_copy quote_name (VStr "?total:csv")); [reflexivity | discriminate].
Defined.

(** The cast that the copy drops: a cast of colons only is kept as the
    empty text, which the constructor does not take for a cast. *)
Example Column_copy_empty_cast :
  exists c, Column_new quote_name
              (object [own "name" (VStr "a"); own "cast" (VStr "::")]) = Ok c
            /\ col_cast c = Some ""
            /\ exists c', Column_new quote_name (Column_fields c) = Ok c'
                          /\ col_cast c' = None.
Proof.
  eexists. split; [reflexivity|]. split; [reflexivity|].
  eexists. split; reflexivity.
Qed.


Lemma Column_of_config_witness :
  Column_new quote_name (VNum 3)
  = Throw (TypeError "A column must be a string or a configurator object.")
  /\ Column_new quote_name (object [own "prop" (VStr "a")])
     = Throw (TypeError "A column name must be a non-empty text string.")
  /\ Column_new quote_name (object [own "name" (VStr "a"); own "prop" (VStr "")])
     = Throw (TypeError "A property name must be a non-empty text string.")
  /\ exists c,
       Column_new quote_name
         (object [own "name" (VStr "a"); own "cast" (VStr "::int"); own "cnd" (VNum 1);
                own "def" VUndefined; own "init" (VStr "f")]) = Ok c
       /\ col_cast c = Some "int" /\ col_cnd c = Some true
       /\ col_def c = Some VUndefined /\ col_init c = None.
Proof.
  split; [|split; [|split]].
  - apply (proj1 (Column_of_config quote_name (VNum 3)));
      [intros s; discriminate | reflexivity].
  - apply (proj1 (proj2 (Column_of_config quote_name (object [own "prop" (VStr "a")]))));
      reflexivity.
  - apply (proj1 (proj2 (proj2 (Column_of_config quote_name
             (object [own "name" (VStr "a"); own "prop" (VStr "")])))));
      reflexivity.
  - destruct (proj2 (proj2 (proj2 (Column_of_config quote_name
                (object [own "name" (VStr "a"); own "cast" (VStr "::int");
                       own "cnd" (VNum 1); own "def" VUndefined;
                       own "init" (VStr "f")]))))
                eq_refl eq_refl (or_introl eq_refl))
      as (c & Hc & _ & _ & _ & Hcast & Hcnd & Hdef & Hinit & _).
    exists c. split; [exact Hc|].
    split; [exact Hcast|]. split; [exact Hcnd|]. split; [exact Hdef | exact Hinit].
Defined.

Lemma ColumnSet_array_columns_witness :
  In with_default
     (cs_columns (mkColumnSet None
                    [mkColumn "val" None (Some "^") None None None None None
                              "${val^}" "" (quote_name "val");
                     with_default] None None None))
  /\ ColumnSet_new quote_name sample_call
       (ColumnsArray [SpecValue (VStr "val^"); SpecValue (VNum 1); SpecValue (VStr "")])
       (OptionsValue VUndefined)
     = Throw (TypeError "A column must be a string or a configurator object.").
Proof.
  split.
  - apply (proj1 (ColumnSet_array_columns quote_name sample_call
                    [SpecValue (VStr "val^"); SpecColumn with_default]
                    (OptionsValue VUndefined))
                 (mkColumnSet None
                    [mkColumn "val" None (Some "^") None None None None None
                              "${val^}" "" (quote_name "val");
                     with_default] None None None)
                 eq_refl).
    right. left. reflexivity.
  - apply (proj1 (proj2 (ColumnSet_array_columns quote_name sample_call
                    [SpecValue (VStr "val^"); SpecValue (VNum 1); SpecValue (VStr "")]
                    (OptionsValue VUndefined)))
                 [SpecValue (VStr "val^")] (SpecValue (VNum 1)) [SpecValue (VStr "")]
                 _ None VUndefined eq_refl eq_refl).
    + constructor; [|constructor]. eexists. reflexivity.
    + reflexivity.
Defined.

Lemma ColumnSet_new_faults_witness :
  ColumnSet_new quote_name sample_call (ColumnsValue (VStr "id")) (OptionsValue (VNum 1))
  = Throw (TypeError "Invalid parameter 'columns' specified.")
  /\ ColumnSet_new quote_name sample_call (ColumnsArray [SpecValue (VNum 1)]) (OptionsValue (VStr "t"))
     = Throw (TypeError "Invalid parameter 'options' specified.")
  /\ ColumnSet_new quote_name sample_call (ColumnsArray [SpecValue (VNum 1)])
                   (OptionsValue (object [own "table" (VStr "")]))
     = Throw (TypeError "Table name must be non-empty text string.").
Proof.
  split; [|split].
  - apply (proj1 (ColumnSet_new_faults quote_name sample_call (ColumnsValue (VStr "id")) VNull)).
    reflexivity.
  - apply (proj1 (proj2 (ColumnSet_new_faults quote_name sample_call
                           (ColumnsArray [SpecValue (VNum 1)]) (VStr "t"))));
      [intros v; discriminate | reflexivity | discriminate].
  - apply (proj2 (proj2 (ColumnSet_new_faults quote_name sample_call
                           (ColumnsArray [SpecValue (VNum 1)])
                           (object [own "table" (VStr "")]))));
      [intros v; discriminate | reflexivity | reflexivity | reflexivity].
Defined.

Lemma update_table_choice_witness :
  update quote_name sample_call literal literal_named sample_toString
         (VArr sample_rows)
         (ColumnsSet (with_table sample_set (Some (mkTableName "t" None (quote_name "t")))))
         (TableValue VUndefined) VUndefined VUndefined
  = update quote_name sample_call literal literal_named sample_toString
           (VArr sample_rows)
           (ColumnsSet (with_table sample_set (Some (mkTableName "t" None (quote_name "t")))))
           (TableInstance (mkTableName "t" None (quote_name "t"))) VUndefined VUndefined
  /\ update quote_name sample_call literal literal_named sample_toString
            (VArr sample_rows)
            (ColumnsSet (with_table sample_set (Some (mkTableName "t" None (quote_name "t")))))
            (TableValue (VStr "other")) VUndefined VUndefined
     = update quote_name sample_call literal literal_named sample_toString
              (VArr sample_rows) (ColumnsSet sample_set)
              (TableValue (VStr "other")) VUndefined VUndefined.
Proof.
  split.
  - apply (proj1 (update_table_choice quote_name sample_call literal literal_named
                    sample_toString (VArr sample_rows)
                    (with_table sample_set (Some (mkTableName "t" None (quote_name "t"))))
                    (TableValue VUndefined) VUndefined VUndefined));
      reflexivity.
  - apply (proj2 (update_table_choice quote_name sample_call literal literal_named
                    sample_toString (VArr sample_rows) sample_set
                    (TableValue (VStr "other")) VUndefined VUndefined)).
    reflexivity.
Defined.

Lemma update_invalid_arguments_witness :
  update quote_name sample_call literal literal_named sample_toString
         (VStr "row") (ColumnsSet sample_set) (TableValue (VStr "t")) VUndefined VUndefined
  = Throw (TypeError "Invalid parameter 'data' specified.")
  /\ update quote_name sample_call literal literal_named sample_toString
            (VArr sample_rows) (ColumnsSet sample_set) (TableValue VUndefined)
            (VNum 1) VUndefined
     = Throw (TypeError "Invalid parameter 'options' specified.").
Proof.
  split.
  - apply (proj1 (update_invalid_arguments quote_name sample_call literal literal_named
                    sample_toString (VStr "row") (ColumnsSet sample_set)
                    (TableValue (VStr "t")) VUndefined VUndefined)).
    reflexivity.
  - apply (proj2 (update_invalid_arguments quote_name sample_call literal literal_named
                    sample_toString (VArr sample_rows) (ColumnsSet sample_set)
                    (TableValue VUndefined) (VNum 1) VUndefined)
                 sample_set (TableValue VUndefined));
      [reflexivity | discriminate | reflexivity | reflexivity | discriminate].
Defined.

(** A multi-row update with columns that would all be skipped. *)
Example update_rows_ignore_skip_example :
  update quote_name sample_call literal literal_named sample_toString
         (VArr sample_rows) (ColumnsSet skipping_set) (TableValue (VStr "t"))
         VUndefined VUndefined
  = update quote_name sample_call literal literal_named sample_toString
           (VArr sample_rows) (ColumnsSet (ColumnSet_without_skip skipping_set))
           (TableValue (VStr "t")) VUndefined VUndefined.
Proof. reflexivity. Qed.
